(** * TweetPurge: [delete_tweets.py]

    A shallow embedding of the filter pipeline ([filter_tweets]) and of the
    deletion orchestrator ([delete_tweets]) of [src/delete_tweets.py],
    followed by the properties of the specification that concern them.

    Conventions.
    - A Python [str] is a [string]; a character is read as a code point
      below 256, which fixes what [str.strip] and [str.lower] do.
    - A dict with the keys [id], [text], [created_at] is a record.
    - Side effects (console, ledger file, API calls, sleeping) are explicit:
      a computation takes the current [world] and returns its value, the new
      world and the events it emitted, in program order. *)

From Stdlib Require Import ZArith Lia Ascii.
From stdpp Require Import base list strings gmap.

(** ** Python string operations used by the script *)

Module PyStr.

Definition code (c : ascii) : nat := Ascii.nat_of_ascii c.

(** [str.isspace] on one character below 256: TAB..CR, FS..US, space,
    NEL and NBSP. *)
Definition is_space (c : ascii) : bool :=
  let n := code c in
  (((9 <=? n) && (n <=? 13)) || ((28 <=? n) && (n <=? 32))
   || (n =? 133) || (n =? 160))%nat.

Fixpoint lstrip (s : string) : string :=
  match s with
  | String c s' => if is_space c then lstrip s' else s
  | EmptyString => EmptyString
  end.

Fixpoint rstrip (s : string) : string :=
  match s with
  | String c s' =>
      match rstrip s' with
      | EmptyString => if is_space c then EmptyString else String c EmptyString
      | r => String c r
      end
  | EmptyString => EmptyString
  end.

(** [s.strip()] *)
Definition strip (s : string) : string := rstrip (lstrip s).

(** [str.lower] on one character below 256: A..Z and the accented capitals
    0xC0..0xDE other than the multiplication sign 0xD7 move up by 32. *)
Definition lower_char (c : ascii) : ascii :=
  let n := code c in
  if (((65 <=? n) && (n <=? 90))
      || ((192 <=? n) && (n <=? 222) && negb (n =? 215)))%nat
  then Ascii.ascii_of_nat (n + 32) else c.

Fixpoint lower (s : string) : string :=
  match s with
  | String c s' => String (lower_char c) (lower s')
  | EmptyString => EmptyString
  end.

(** [needle in hay] *)
Fixpoint contains (needle hay : string) : bool :=
  String.prefix needle hay
  || match hay with
     | String _ hay' => contains needle hay'
     | EmptyString => false
     end.

(** [s[:n]] *)
Fixpoint take (n : nat) (s : string) : string :=
  match n, s with
  | S n', String c s' => String c (take n' s')
  | _, _ => EmptyString
  end.

(** [s.replace(c, by)] for a one-character pattern [c] *)
Fixpoint replace (c : ascii) (by_ : string) (s : string) : string :=
  match s with
  | String d s' =>
      if Ascii.eqb d c then by_ +:+ replace c by_ s'
      else String d (replace c by_ s')
  | EmptyString => EmptyString
  end.

(** Truth value of an optional string: [None] and the empty string are
    false. *)
Definition truthy (o : option string) : option string :=
  match o with
  | Some EmptyString => None
  | _ => o
  end.

End PyStr.

Definition newline : ascii := Ascii.ascii_of_nat 10.

(** ** Data model *)

(** The dicts built by [fetch_tweets_from_api] and
    [load_tweets_from_archive]. *)
Record tweet := Tweet {
  id : string;
  text : string;
  created_at : option string
}.

(** The dicts appended to [log] and stored in [LOG_FILE]. *)
Record log_entry := LogEntry {
  entry_id : string;
  entry_text : string;
  entry_created_at : option string;
  deleted_at : string
}.

(** A [datetime]: the wall-clock fields as one number, and the UTC offset
    when the value is timezone-aware. *)
Record datetime := Datetime {
  wall : Z;
  tzinfo : option Z
}.

(** [d.replace(tzinfo=None)] *)
Definition drop_tzinfo (d : datetime) : datetime :=
  {| wall := wall d; tzinfo := None |}.

(** [a < b]; [None] is the [TypeError] Python raises when a naive and an
    aware value are compared. *)
Definition dt_lt (a b : datetime) : option bool :=
  match tzinfo a, tzinfo b with
  | None, None => Some (wall a <? wall b)%Z
  | Some oa, Some ob => Some (wall a - oa <? wall b - ob)%Z
  | _, _ => None
  end.

(** [a > b] *)
Definition dt_gt (a b : datetime) : option bool := dt_lt b a.

(** ** [filter_tweets] *)

(** One line per [print] of [filter_tweets]: the option, its argument, the
    number of tweets before and after the stage. *)
Inductive filter_line :=
| FilterBefore (arg : string) (original_count new_count : nat)
| FilterAfter (arg : string) (original_count new_count : nat)
| FilterContains (arg : string) (original_count new_count : nat)
| FilterExclude (arg : string) (original_count new_count : nat).

Section Filter.

(** [datetime.fromisoformat]; [None] is its [ValueError]. *)
Variable fromisoformat : string -> option datetime.

(** [datetime.fromisoformat(t["created_at"].replace("Z", "+00:00"))] *)
Definition tweet_date (c : string) : option datetime :=
  fromisoformat (PyStr.replace "Z"%char "+00:00" c).

(** Body of the loop of the [--before] stage: does [t] reach
    [new_filtered]? *)
Definition keep_before (before_dt : datetime) (t : tweet) : bool :=
  match PyStr.truthy (created_at t) with
  | Some c =>
      match tweet_date c with
      | Some d =>
          match dt_lt (drop_tzinfo d) before_dt with
          | Some b => b
          | None => true            (* except TypeError: append *)
          end
      | None => true                (* except ValueError: append *)
      end
  | None => true                    (* else: append *)
  end.

(** Body of the loop of the [--after] stage. *)
Definition keep_after (after_dt : datetime) (t : tweet) : bool :=
  match PyStr.truthy (created_at t) with
  | Some c =>
      match tweet_date c with
      | Some d =>
          match dt_gt (drop_tzinfo d) after_dt with
          | Some b => b
          | None => false           (* except TypeError: pass *)
          end
      | None => false               (* except ValueError: pass *)
      end
  | None => false                   (* no else branch *)
  end.

Definition keep_contains (contains : string) (t : tweet) : bool :=
  PyStr.contains (PyStr.lower contains) (PyStr.lower (text t)).

Definition keep_exclude (exclude_contains : string) (t : tweet) : bool :=
  negb (PyStr.contains (PyStr.lower exclude_contains) (PyStr.lower (text t))).

(** The result of a call: the lines printed, and the returned list, or
    [None] when [fromisoformat] rejects one of the two bounds. *)
Definition filtered (A : Type) : Type := (list filter_line * option A)%type.

Definition stage_before (before_date : option string) (l : list tweet)
  : filtered (list tweet) :=
  match PyStr.truthy before_date with
  | Some b =>
      match fromisoformat b with
      | Some before_dt =>
          let new_filtered := List.filter (keep_before before_dt) l in
          ([FilterBefore b (length l) (length new_filtered)], Some new_filtered)
      | None => ([], None)
      end
  | None => ([], Some l)
  end.

Definition stage_after (after_date : option string) (l : list tweet)
  : filtered (list tweet) :=
  match PyStr.truthy after_date with
  | Some a =>
      match fromisoformat a with
      | Some after_dt =>
          let new_filtered := List.filter (keep_after after_dt) l in
          ([FilterAfter a (length l) (length new_filtered)], Some new_filtered)
      | None => ([], None)
      end
  | None => ([], Some l)
  end.

Definition stage_contains (contains : option string) (l : list tweet)
  : filtered (list tweet) :=
  match PyStr.truthy contains with
  | Some c =>
      let new_filtered := List.filter (keep_contains c) l in
      ([FilterContains c (length l) (length new_filtered)], Some new_filtered)
  | None => ([], Some l)
  end.

Definition stage_exclude (exclude_contains : option string) (l : list tweet)
  : filtered (list tweet) :=
  match PyStr.truthy exclude_contains with
  | Some c =>
      let new_filtered := List.filter (keep_exclude c) l in
      ([FilterExclude c (length l) (length new_filtered)], Some new_filtered)
  | None => ([], Some l)
  end.

Definition then_stage (m : filtered (list tweet))
    (f : list tweet -> filtered (list tweet)) : filtered (list tweet) :=
  match m with
  | (out, Some l) => let '(out', r) := f l in (out ++ out', r)
  | (out, None) => (out, None)
  end.

Definition filter_tweets (tweets : list tweet)
    (before_date after_date contains exclude_contains : option string)
  : filtered (list tweet) :=
  then_stage
    (then_stage
       (then_stage (stage_before before_date tweets)
                   (stage_after after_date))
       (stage_contains contains))
    (stage_exclude exclude_contains).

End Filter.

(** ** Effects of [delete_tweets] *)

(** What one evaluation of [client.delete_tweet(int(tweet_id))] does: it
    returns, or it raises.  The constructors are the exception classes the
    handlers of [delete_tweets] tell apart, [OtherError] being every other
    [Exception] (an id that [int] rejects included); [msg] is [str(e)]. *)
Inductive api_result :=
| Deleted
| TooManyRequests (msg : string)
| NotFound (msg : string)
| Forbidden (msg : string)
| OtherError (msg : string).

(** The API client seen from the script: the outcome of the [n]-th call
    made in this run (counting from 0), given the id it is made for. *)
Record client := Client {
  delete_tweet : nat -> string -> api_result
}.

(** Which of the two [client.delete_tweet] call sites an API call is. *)
Inductive attempt := First | Retry.

(** One constructor per [print] statement of [delete_tweets], with the
    values it interpolates. *)
Inductive message :=
| MsgNoTweets
| MsgRule
| MsgDryRun (total : nat)
| MsgPreview (i : nat) (created : option string) (text_preview : string)
| MsgMore (n : nat)
| MsgRunWithoutDryRun
| MsgWarning (total : nat)
| MsgAborted
| MsgSkippingConfirmation
| MsgSkipping (skipped : nat)
| MsgAllDeleted
| MsgDeleting (total : nat)
| MsgDeleted (i total : nat) (text_preview : string)
| MsgRateLimited
| MsgNoCreditsRetry
| MsgRerunRetry
| MsgFailedAfterRetry (i total : nat) (e : string)
| MsgNotFound (i total : nat) (tweet_id : string)
| MsgNoCredits
| MsgRerun
| MsgFailed (i total : nat) (e : string)
| MsgApproaching
| MsgDone (deleted failed : nat)
| MsgLogSaved.

Inductive event :=
| Print (m : message)
| Input (reply : string)                    (* input("Type 'DELETE' ...") *)
| LogExists (b : bool)                      (* log_path.exists() *)
| LogRead (content : list log_entry)        (* json.loads(log_path.read_text()) *)
| LogWrite (content : list log_entry)       (* log_path.write_text(json.dumps(log)) *)
| DeleteTweet (a : attempt) (tweet_id : string) (r : api_result)
| Sleep (seconds : Z).                      (* time.sleep *)

(** What the run can observe and change: the ledger file [LOG_FILE] (absent,
    or holding a list of entries), the number of API calls made so far, the
    line the user will type, and the clock ([datetime.now().isoformat()],
    read after that many API calls). *)
Record world := World {
  log_file : option (list log_entry);
  api_calls : nat;
  stdin : string;
  clock : nat -> string
}.

Definition M (A : Type) : Type := world -> A * world * list event.

Definition ret {A} (a : A) : M A := fun w => (a, w, []).

Definition bind {A B} (m : M A) (k : A -> M B) : M B :=
  fun w =>
    let '(a, w1, e1) := m w in
    let '(b, w2, e2) := k a w1 in
    (b, w2, e1 ++ e2).

Notation "'do' x <- m ; k" := (bind m (fun x => k))
  (at level 10, x name, m at level 100, k at level 200).
Notation "m ;; k" := (bind m (fun _ => k))
  (at level 100, k at level 200, right associativity).

Definition print (m : message) : M unit := fun w => (tt, w, [Print m]).

Definition input : M string := fun w => (stdin w, w, [Input (stdin w)]).

Definition log_exists : M bool :=
  fun w =>
    let b := match log_file w with Some _ => true | None => false end in
    (b, w, [LogExists b]).

Definition read_log : M (list log_entry) :=
  fun w => let l := default [] (log_file w) in (l, w, [LogRead l]).

(** The world once [l] has been written to the ledger file. *)
Definition wrote (l : list log_entry) (w : world) : world :=
  {| log_file := Some l; api_calls := api_calls w;
     stdin := stdin w; clock := clock w |}.

(** The world once one more API call has been made. *)
Definition called (w : world) : world :=
  {| log_file := log_file w; api_calls := S (api_calls w);
     stdin := stdin w; clock := clock w |}.

Definition write_log (l : list log_entry) : M unit :=
  fun w => (tt, wrote l w, [LogWrite l]).

Definition call_delete (c : client) (a : attempt) (tweet_id : string) : M api_result :=
  fun w =>
    let r := delete_tweet c (api_calls w) tweet_id in
    (r, called w, [DeleteTweet a tweet_id r]).

Definition now : M string := fun w => (clock w (api_calls w), w, []).

Definition sleep (seconds : Z) : M unit := fun w => (tt, w, [Sleep seconds]).

(** The value, final world and trace of a computation. *)
Definition value {A} (r : A * world * list event) : A := r.1.1.
Definition final {A} (r : A * world * list event) : world := r.1.2.
Definition trace {A} (r : A * world * list event) : list event := r.2.

(** ** [delete_tweets] *)

Definition RATE_LIMIT_DELETES : nat := 50.
Definition RATE_LIMIT_WINDOW : Z := 15 * 60.
Definition CONFIRMATION : string := "DELETE".
Definition PREVIEW : nat := 20.

(** The local variables the deletion loop updates. *)
Record locals := Locals {
  log : list log_entry;
  deleted : nat;
  failed : nat;
  batch_count : nat
}.

Inductive control := Next | Break.

(** The dict appended to [log] after a call that returned. *)
Definition entry_of (t : tweet) (deleted_at : string) : log_entry :=
  {| entry_id := id t; entry_text := text t;
     entry_created_at := created_at t; deleted_at := deleted_at |}.

(** [tweet["text"][:n].replace("\n", " ")] *)
Definition text_preview (n : nat) (t : tweet) : string :=
  PyStr.replace newline " " (PyStr.take n (text t)).

(** The test of the outer [except tweepy.errors.Forbidden] handler. *)
Definition exhausted_forbidden (error_str : string) : bool :=
  PyStr.contains "402" error_str
  || PyStr.contains "credits" (PyStr.lower error_str)
  || PyStr.contains "Payment Required" error_str
  || PyStr.contains "spend cap" (PyStr.lower error_str).

(** The test of the outer [except Exception] handler. *)
Definition exhausted_other (error_str : string) : bool :=
  PyStr.contains "402" error_str
  || PyStr.contains "Payment Required" error_str
  || PyStr.contains "credits" (PyStr.lower error_str)
  || PyStr.contains "spend cap" (PyStr.lower error_str).

(** The test of the [except tweepy.errors.Forbidden] handler of the retry. *)
Definition exhausted_retry (e : string) : bool :=
  PyStr.contains "402" e || PyStr.contains "credits" (PyStr.lower e).

(** [deleted += 1; batch_count += 1; log.append({...})], the clock
    reading [ts] being the entry's [deleted_at]. *)
Definition logged (t : tweet) (ts : string) (st : locals) : locals :=
  {| log := log st ++ [entry_of t ts]; deleted := S (deleted st);
     failed := failed st; batch_count := S (batch_count st) |}.

Definition record_deleted (t : tweet) (st : locals) : M locals :=
  do ts <- now;
  ret (logged t ts st).

(** [failed += 1] *)
Definition count_failed (st : locals) : locals :=
  {| log := log st; deleted := deleted st;
     failed := S (failed st); batch_count := batch_count st |}.

(** [deleted += 1] *)
Definition count_deleted (st : locals) : locals :=
  {| log := log st; deleted := S (deleted st);
     failed := failed st; batch_count := batch_count st |}.

(** [batch_count = 0] *)
Definition reset_batch (st : locals) : locals :=
  {| log := log st; deleted := deleted st;
     failed := failed st; batch_count := 0 |}.

(** The [try] statement of the loop body; [Break] is its [break]. *)
Definition attempt_delete (c : client) (total i : nat) (t : tweet) (st : locals)
  : M (control * locals) :=
  let tweet_id := id t in
  do r <- call_delete c First tweet_id;
  match r with
  | Deleted =>
      do st <- record_deleted t st;
      print (MsgDeleted i total (text_preview 60 t));;
      ret (Next, st)
  | TooManyRequests _ =>
      print MsgRateLimited;;
      write_log (log st);;
      sleep (RATE_LIMIT_WINDOW + 5);;
      let st := reset_batch st in
      do r2 <- call_delete c Retry tweet_id;
      match r2 with
      | Deleted =>
          do st <- record_deleted t st;
          ret (Next, st)
      | Forbidden e =>
          if exhausted_retry e then
            print MsgNoCreditsRetry;;
            print MsgRerunRetry;;
            write_log (log st);;
            ret (Break, st)
          else
            print (MsgFailedAfterRetry i total e);;
            ret (Next, count_failed st)
      | TooManyRequests e | NotFound e | OtherError e =>
          print (MsgFailedAfterRetry i total e);;
          ret (Next, count_failed st)
      end
  | NotFound _ =>
      print (MsgNotFound i total tweet_id);;
      ret (Next, count_deleted st)
  | Forbidden error_str =>
      if exhausted_forbidden error_str then
        print MsgNoCredits;;
        print MsgRerun;;
        write_log (log st);;
        ret (Break, st)
      else
        print (MsgFailed i total error_str);;
        ret (Next, count_failed st)
  | OtherError error_str =>
      if exhausted_other error_str then
        print MsgNoCredits;;
        print MsgRerun;;
        write_log (log st);;
        ret (Break, st)
      else
        print (MsgFailed i total error_str);;
        ret (Next, count_failed st)
  end.

(** The proactive pause that ends the loop body. *)
Definition proactive_pause (st : locals) : M locals :=
  if (RATE_LIMIT_DELETES - 2 <=? batch_count st)%nat then
    print MsgApproaching;;
    write_log (log st);;
    sleep (RATE_LIMIT_WINDOW + 5);;
    ret (reset_batch st)
  else ret st.

(** One iteration of [for i, tweet in enumerate(remaining, 1)]. *)
Definition loop_body (c : client) (total i : nat) (t : tweet) (st : locals)
  : M (control * locals) :=
  do r <- attempt_delete c total i t st;
  match r with
  | (Break, st) => ret (Break, st)
  | (Next, st) => do st <- proactive_pause st; ret (Next, st)
  end.

(** The loop, from index [i]; the result tells whether it ended by
    [break]. *)
Fixpoint delete_loop (c : client) (total i : nat) (remaining : list tweet)
    (st : locals) : M (control * locals) :=
  match remaining with
  | [] => ret (Next, st)
  | t :: rest =>
      do r <- loop_body c total i t st;
      match r with
      | (Break, st) => ret (Break, st)
      | (Next, st) => delete_loop c total (S i) rest st
      end
  end.

(** [for i, tweet in enumerate(tweets[:20], 1): print(...)] *)
Fixpoint print_preview (i : nat) (l : list tweet) : M unit :=
  match l with
  | [] => ret tt
  | t :: rest =>
      print (MsgPreview i (created_at t) (text_preview 80 t));;
      print_preview (S i) rest
  end.

(** [{entry["id"] for entry in log}] *)
Definition ids_of_log (l : list log_entry) : gset string :=
  list_to_set (entry_id <$> l).

(** [[t for t in tweets if t["id"] not in already_deleted_ids]] *)
Definition not_yet_deleted (already_deleted_ids : gset string) (tweets : list tweet)
  : list tweet :=
  filter (fun t => id t ∉ already_deleted_ids) tweets.

(** The confirmation gate: [true] when the run may go on. *)
Definition confirm_deletion (skip_confirm : bool) : M bool :=
  if negb skip_confirm then
    do line <- input;
    let confirm := PyStr.strip line in
    if String.eqb confirm CONFIRMATION then ret true
    else print MsgAborted;; ret false
  else
    print MsgSkippingConfirmation;; ret true.

(** [deleted = 0; failed = 0; batch_count = 0], with [log] as loaded. *)
Definition initial_locals (log0 : list log_entry) : locals :=
  {| log := log0; deleted := 0; failed := 0; batch_count := 0 |}.

(** Everything from "Load existing log" to the end of the function. *)
Definition delete_confirmed (c : client) (tweets : list tweet) : M unit :=
  let total := length tweets in
  do present <- log_exists;
  do log0 <- (if present then read_log else ret []);
  let already_deleted_ids := ids_of_log log0 in
  let remaining := not_yet_deleted already_deleted_ids tweets in
  let skipped := total - length remaining in
  (if (0 <? skipped)%nat then print (MsgSkipping skipped) else ret tt);;
  let total := length remaining in
  if (total =? 0)%nat then print MsgAllDeleted
  else
    print (MsgDeleting total);;
    do r <- delete_loop c total 1 remaining (initial_locals log0);
    let st := r.2 in
    write_log (log st);;
    print MsgRule;;
    print (MsgDone (deleted st) (failed st));;
    print MsgLogSaved;;
    print MsgRule.

Definition dry_run_report (tweets : list tweet) : M unit :=
  let total := length tweets in
  print MsgRule;;
  print (MsgDryRun total);;
  print MsgRule;;
  print_preview 1 (take PREVIEW tweets);;
  (if (PREVIEW <? total)%nat then print (MsgMore (total - PREVIEW)) else ret tt);;
  print MsgRunWithoutDryRun.

Definition delete_tweets (c : client) (tweets : list tweet)
    (dry_run skip_confirm : bool) : M unit :=
  let total := length tweets in
  if (total =? 0)%nat then print MsgNoTweets
  else if dry_run then dry_run_report tweets
  else
    print MsgRule;;
    print (MsgWarning total);;
    print MsgRule;;
    do go <- confirm_deletion skip_confirm;
    if go then delete_confirmed c tweets else ret tt.

(** ** Reading a trace *)

(** The ids of the API calls, in order. *)
Definition deletions (evs : list event) : list string :=
  omap (fun e => match e with DeleteTweet _ i _ => Some i | _ => None end) evs.

(** The ids of the API calls that returned. *)
Definition succeeded (evs : list event) : list string :=
  omap (fun e => match e with DeleteTweet _ i Deleted => Some i | _ => None end) evs.

(** The ids of the calls made by the [try] statement itself (not its retry). *)
Definition first_attempts (evs : list event) : list string :=
  omap (fun e => match e with DeleteTweet First i _ => Some i | _ => None end) evs.

(** The ids the [try] statement found gone ([NotFound] on the first
    attempt). *)
Definition gone (evs : list event) : list string :=
  omap (fun e => match e with DeleteTweet First i (NotFound _) => Some i | _ => None end)
       evs.

Definition sleeps (evs : list event) : list Z :=
  omap (fun e => match e with Sleep s => Some s | _ => None end) evs.

(** The contents written to the ledger file, in order. *)
Definition writes (evs : list event) : list (list log_entry) :=
  omap (fun e => match e with LogWrite l => Some l | _ => None end) evs.

(** Every access to the ledger file: existence test, read, write. *)
Definition ledger_accesses (evs : list event) : list event :=
  List.filter
    (fun e => match e with LogExists _ | LogRead _ | LogWrite _ => true | _ => false end)
    evs.

(** The events that load the ledger: existence test and read. *)
Definition loads (evs : list event) : list event :=
  List.filter
    (fun e => match e with LogExists _ | LogRead _ => true | _ => false end)
    evs.

Definition is_print (e : event) : Prop :=
  match e with Print _ => True | _ => False end.

(** The ledger a run starts from: the entries of the file, none when the
    file is absent. *)
Definition ledger (w : world) : list log_entry := default [] (log_file w).

(** The ids of a ledger, in file order. *)
Definition ledger_ids (l : list log_entry) : list string := entry_id <$> l.

(** The candidates a run with ledger [log0] still has to delete. *)
Definition remaining_of (log0 : list log_entry) (tweets : list tweet) : list tweet :=
  not_yet_deleted (ids_of_log log0) tweets.

(** The confirmation gate lets the run through. *)
Definition confirmed (skip_confirm : bool) (w : world) : Prop :=
  skip_confirm = true \/ PyStr.strip (stdin w) = CONFIRMATION.

(** Every API call of the trace returned. *)
Definition flawless (evs : list event) : Prop :=
  forall a i x, DeleteTweet a i x ∈ evs -> x = Deleted.

(** The outer handlers take [r] for quota or billing exhaustion. *)
Definition exhaustion_signal (r : api_result) : bool :=
  match r with
  | Forbidden e => exhausted_forbidden e
  | OtherError e => exhausted_other e
  | _ => false
  end.


(** What a run that passes the gate emits before it looks at the
    candidates it still has to delete, and after its loop. *)
Definition banner (total : nat) : list event :=
  [Print MsgRule; Print (MsgWarning total); Print MsgRule].

Definition gate_events (skip_confirm : bool) (w : world) : list event :=
  if skip_confirm then [Print MsgSkippingConfirmation] else [Input (stdin w)].

Definition loading_events (w : world) : list event :=
  match log_file w with
  | Some l => [LogExists true; LogRead l]
  | None => [LogExists false]
  end.

Definition skipping_events (skipped : nat) : list event :=
  if (0 <? skipped)%nat then [Print (MsgSkipping skipped)] else [].

Definition prologue (tweets : list tweet) (skip_confirm : bool) (w : world)
  : list event :=
  banner (length tweets) ++ gate_events skip_confirm w ++ loading_events w
  ++ skipping_events (length tweets - length (remaining_of (ledger w) tweets)).

Definition epilogue (st : locals) : list event :=
  [LogWrite (log st); Print MsgRule; Print (MsgDone (deleted st) (failed st));
   Print MsgLogSaved; Print MsgRule].

(** The deletion loop of a confirmed run, as [delete_confirmed] starts it. *)
Definition main_loop (c : client) (tweets : list tweet) (w : world)
  : (control * locals) * world * list event :=
  let remaining := remaining_of (ledger w) tweets in
  delete_loop c (length remaining) 1 remaining (initial_locals (ledger w)) w.

(** The lines of the dry-run preview of [l]. *)
Definition preview_lines (l : list tweet) : list event :=
  imap (fun k t => Print (MsgPreview (S k) (created_at t) (text_preview 80 t))) l.

(** A tweet the date stages cannot date: [created_at] is missing, empty or
    rejected by [fromisoformat]. *)
Definition undated (fromisoformat : string -> option datetime) (t : tweet) : Prop :=
  match PyStr.truthy (created_at t) with
  | Some c => tweet_date fromisoformat c = None
  | None => True
  end.

(** ** Invariants of the deletion loop

    Properties of the candidates handled so far, the local variables, the
    world and the events emitted so far, used by the proofs below. *)

(** [log] is the loaded ledger followed by one entry per call that has
    returned, in call order; each entry copies a candidate seen so far, and
    no candidate is entered more often than it was seen. *)
Definition tracks_successes (log0 : list log_entry)
    (seen : list tweet) (st : locals) (w : world) (evs : list event) : Prop :=
  exists new,
    log st = log0 ++ new
    /\ ledger_ids new = succeeded evs
    /\ Forall (fun e => exists t ts, t ∈ seen /\ e = entry_of t ts) new
    /\ ledger_ids new `sublist_of` (id <$> seen).


Definition flawless_so_far (seen : list tweet) (st : locals) (w : world)
    (evs : list event) : Prop :=
  flawless evs -> succeeded evs = id <$> seen.

Definition flawed (seen : list tweet) (st : locals) (w : world)
    (evs : list event) : Prop :=
  ~ flawless evs.

Definition no_exhaustion_yet (seen : list tweet) (st : locals) (w : world)
    (evs : list event) : Prop :=
  first_attempts evs = id <$> seen
  /\ forall e1 i x e2,
       evs = e1 ++ DeleteTweet First i x :: e2 -> exhaustion_signal x = false.

Definition stopped_at_exhaustion (seen : list tweet) (st : locals) (w : world)
    (evs : list event) : Prop :=
  forall e1 i x e2,
    evs = e1 ++ DeleteTweet First i x :: e2 ->
    exhaustion_signal x = true ->
    exists pre tk,
      seen = pre ++ [tk] /\ id tk = i /\ first_attempts e1 = id <$> pre
      /\ e2 = [Print MsgNoCredits; Print MsgRerun; LogWrite (log st)].

Definition abort_head (log0 : list log_entry) (seen : list tweet) (st : locals)
    (w : world) (evs : list event) : Prop :=
  no_exhaustion_yet seen st w evs /\ tracks_successes log0 seen st w evs.

Definition abort_stop (log0 : list log_entry) (seen : list tweet) (st : locals)
    (w : world) (evs : list event) : Prop :=
  stopped_at_exhaustion seen st w evs
  /\ exists pre tk, seen = pre ++ [tk] /\ tracks_successes log0 pre st w evs.

(** [deleted] counts the calls that returned and the first attempts that
    found the tweet gone. *)
Definition counts_gone (seen : list tweet) (st : locals) (w : world)
    (evs : list event) : Prop :=
  deleted st = length (succeeded evs) + length (gone evs).

Definition loads_are (l : list event) (seen : list tweet) (st : locals)
    (w : world) (evs : list event) : Prop :=
  loads evs = l.

(** Every sleep comes right after a write of the ledger kept in memory,
    which holds an entry for every call that has returned. *)
Definition checkpointed (log0 : list log_entry) (seen : list tweet) (st : locals)
    (w : world) (evs : list event) : Prop :=
  tracks_successes log0 seen st w evs
  /\ forall e1 s e2,
       evs = e1 ++ Sleep s :: e2 ->
       s = (RATE_LIMIT_WINDOW + 5)%Z
       /\ exists e0 new,
            e1 = e0 ++ [LogWrite (log0 ++ new)]
            /\ ledger_ids new = succeeded e1.






(** ** Sample data *)

Module Sample.

Definition hello : tweet := Tweet "1" "hello" None.
Definition hello_again : tweet := Tweet "1" "hello (edited)" (Some "2022-01-01").
Definition crypto : tweet := Tweet "2" "buy crypto" (Some "2023-06-01").

(** An API that deletes whatever it is asked to. *)
Definition obliging : client := Client (fun _ _ => Deleted).

(** An API on which nothing exists any more. *)
Definition emptied : client := Client (fun _ _ => NotFound "404 Not Found").

(** One deletion, then the account is out of credit (HTTP 402). *)
Definition out_of_credit : client :=
  Client (fun n _ =>
            match n with
            | 0 => Deleted
            | _ => OtherError "402 Payment Required"
            end).

(** Rate-limited on the first call, out of credit (HTTP 402, which is not
    a [Forbidden]) on the retry, working afterwards. *)
Definition broke_on_retry : client :=
  Client (fun n _ =>
            match n with
            | 0 => TooManyRequests "429 Too Many Requests"
            | 1 => OtherError "402 Payment Required"
            | _ => Deleted
            end).

(** Rate-limited on the first call; from then on, nothing exists any
    more. *)
Definition gone_on_retry : client :=
  Client (fun n _ =>
            match n with
            | 0 => TooManyRequests "429 Too Many Requests"
            | _ => NotFound "404 Not Found"
            end).


(** A ledger file that holds [l]; nobody at the keyboard. *)
Definition resumed (l : list log_entry) : world :=
  {| log_file := Some l; api_calls := 0; stdin := EmptyString;
     clock := fun _ => "2024-02-02T00:00:00" |}.

(** No ledger file yet; the user types [line]. *)
Definition fresh (line : string) : world :=
  {| log_file := None; api_calls := 0; stdin := line;
     clock := fun _ => "2024-01-01T00:00:00" |}.

(** No ledger file, nobody at the keyboard. *)
Definition unattended : world := fresh EmptyString.


End Sample.

(** Sample parser: the three dates it knows, as naive datetimes. *)
Definition sample_fromisoformat (s : string) : option datetime :=
  if String.eqb s "2022-01-01" then Some (Datetime 20220101 None)
  else if String.eqb s "2023-01-01" then Some (Datetime 20230101 None)
  else if String.eqb s "2023-06-01" then Some (Datetime 20230601 None)
  else None.

(** The lines read from the keyboard. *)
Definition inputs (evs : list event) : list string :=
  omap (fun e => match e with Input s => Some s | _ => None end) evs.

(** The abort notices printed ([MsgNoCredits] by the outer handlers,
    [MsgNoCreditsRetry] by the handler of the retry). *)
Definition abort_notices (evs : list event) : list message :=
  omap (fun e => match e with
                 | Print MsgNoCredits => Some MsgNoCredits
                 | Print MsgNoCreditsRetry => Some MsgNoCreditsRetry
                 | _ => None
                 end) evs.

(** Each list of [ls] is extended by every list after it. *)
Definition ascending (ls : list (list log_entry)) : Prop :=
  forall k1 l k2, ls = k1 ++ l :: k2 -> Forall (fun l' => l `prefix_of` l') k2.

(** The ledger in memory extends the loaded one and every content written
    so far, and the contents written extend one another. *)
Definition only_grows (log0 : list log_entry) (seen : list tweet) (st : locals)
    (w : world) (evs : list event) : Prop :=
  log0 `prefix_of` log st
  /\ Forall (fun l => log0 `prefix_of` l /\ l `prefix_of` log st) (writes evs)
  /\ ascending (writes evs).

(** Nothing is read from the keyboard. *)
Definition no_input (seen : list tweet) (st : locals) (w : world)
    (evs : list event) : Prop :=
  inputs evs = [].

(** The API calls made, in order: which attempt, and for which id. *)
Definition calls (evs : list event) : list (attempt * string) :=
  omap (fun e => match e with DeleteTweet a i _ => Some (a, i) | _ => None end) evs.

(** The calls made for one candidate: its first attempt and, when
    [retried], one retry. *)
Definition calls_for (t : tweet) (retried : bool) : list (attempt * string) :=
  (First, id t) :: (if retried then [(Retry, id t)] else []).

(** The calls made so far are those of the candidates seen, candidate by
    candidate in their order. *)
Definition in_order (seen : list tweet) (st : locals) (w : world)
    (evs : list event) : Prop :=
  exists retried : list bool,
    length retried = length seen
    /\ calls evs = concat (zip_with calls_for seen retried).

(** The counts of the summary lines printed ("Done! Deleted: d, Failed: f"). *)
Definition summaries (evs : list event) : list (nat * nat) :=
  omap (fun e => match e with Print (MsgDone d f) => Some (d, f) | _ => None end) evs.

(** Every candidate seen had its first attempt and is counted as deleted or
    as failed; no abort notice and no summary has been printed. *)
Definition all_counted (seen : list tweet) (st : locals) (w : world)
    (evs : list event) : Prop :=
  abort_notices evs = [] /\ summaries evs = []
  /\ first_attempts evs = id <$> seen
  /\ deleted st + failed st = length seen.

(** One abort notice has been printed, and the candidate it was printed
    for is counted neither as deleted nor as failed. *)
Definition one_uncounted (seen : list tweet) (st : locals) (w : world)
    (evs : list event) : Prop :=
  length (abort_notices evs) = 1 /\ summaries evs = []
  /\ first_attempts evs = id <$> seen
  /\ S (deleted st + failed st) = length seen.

(** ** The archive file

    [load_tweets_from_archive] reads [tweets.js] and, before it hands the
    text to [json.loads], removes the JavaScript assignment around the
    JSON. *)

(** [s.index(c)] for a one-character pattern; [None] is the [ValueError]
    raised when [c] does not occur. *)
Fixpoint index (c : ascii) (s : string) : option nat :=
  match s with
  | String d s' => if Ascii.eqb d c then Some 0 else S <$> index c s'
  | EmptyString => None
  end.

(** [s[n:]] *)
Fixpoint drop_chars (n : nat) (s : string) : string :=
  match n, s with
  | S n', String _ s' => drop_chars n' s'
  | _, _ => s
  end.

(** [s.endswith(c)] for a one-character pattern *)
Fixpoint endswith (c : ascii) (s : string) : bool :=
  match s with
  | String d EmptyString => Ascii.eqb d c
  | String _ s' => endswith c s'
  | EmptyString => false
  end.

(** [s[:-1]] *)
Fixpoint drop_last (s : string) : string :=
  match s with
  | String _ EmptyString => EmptyString
  | String d s' => String d (drop_last s')
  | EmptyString => EmptyString
  end.

(** The text given to [json.loads] for a file that holds [content]; [None]
    when [content.index] raises. *)
Definition archive_payload (content : string) : option string :=
  if String.prefix "window." content then
    match index "=" content with
    | Some k =>
        let content := PyStr.strip (drop_chars (k + 1) content) in
        Some (if endswith ";" content then drop_last content else content)
    | None => None
    end
  else Some content.

(** Nothing but whitespace (possibly nothing at all). *)
Fixpoint blank (s : string) : bool :=
  match s with
  | String c s' => PyStr.is_space c && blank s'
  | EmptyString => true
  end.

(** ** Fetching the tweets

    [fetch_tweets_from_api] reads the timeline page by page and keeps what
    it has fetched in [CACHE_FILE]. *)

(** What one call of [client.get_users_tweets] does: it raises, or it
    returns a page: the tweets of [response.data] ([None] is the empty
    list), given as the dicts the loop makes of them, and the token of the
    next page when [response.meta] has one. *)
Inductive page_result :=
| PageError (e : string)
| Page (data : list tweet) (next_token : option string).

(** The reading side of the client: the answer to the [n]-th call, made for
    a user id with a pagination token. *)
Record timeline := Timeline {
  get_users_tweets : nat -> string -> option string -> page_result
}.

Inductive fetch_message :=
| MsgLoadedFromCache (n : nat)
| MsgFetching
| MsgApiError (e : string)
| MsgSavingSoFar (n : nat)
| MsgFetchedSoFar (n : nat)
| MsgTotalFetched (n : nat)
| MsgSavedToCache.

Inductive fetch_event :=
| FetchPrint (m : fetch_message)
| FetchInput (reply : string)                 (* input("Use cached tweets? (y/n): ") *)
| CacheExists (b : bool)                      (* cache_path.exists() *)
| CacheRead (content : list tweet)            (* json.loads(cache_path.read_text()) *)
| CacheWrite (content : list tweet)           (* cache_path.write_text(json.dumps(tweets)) *)
| GetUsersTweets (pagination_token : option string) (r : page_result).

(** The cache file (absent, or holding a list of tweets), the number of
    calls made to the timeline so far, and the line the user will type. *)
Record fetch_world := FetchWorld {
  cache_file : option (list tweet);
  page_calls : nat;
  typed : string
}.

Definition asked (w : fetch_world) : fetch_world :=
  {| cache_file := cache_file w; page_calls := S (page_calls w); typed := typed w |}.

Definition saved (tweets : list tweet) (w : fetch_world) : fetch_world :=
  {| cache_file := Some tweets; page_calls := page_calls w; typed := typed w |}.

(** The [while True] loop, from a pagination token and the tweets fetched
    so far; [None] when [fuel] calls were not enough to leave it. *)
Fixpoint fetch_loop (fuel : nat) (tl : timeline) (user_id : string)
    (pagination_token : option string) (tweets : list tweet) (w : fetch_world)
  : option (list tweet * fetch_world * list fetch_event) :=
  match fuel with
  | 0 => None
  | S fuel' =>
      let response := get_users_tweets tl (page_calls w) user_id pagination_token in
      let w := asked w in
      let call := GetUsersTweets pagination_token response in
      match response with
      | PageError e =>
          match tweets with
          | [] => Some (tweets, w, [call; FetchPrint (MsgApiError e)])
          | _ :: _ =>
              Some (tweets, saved tweets w,
                    [call; FetchPrint (MsgApiError e);
                     FetchPrint (MsgSavingSoFar (length tweets)); CacheWrite tweets])
          end
      | Page data next_token =>
          let tweets := tweets ++ data in
          let w := match data with [] => w | _ :: _ => saved tweets w end in
          let progress :=
            match data with
            | [] => []
            | _ :: _ => [FetchPrint (MsgFetchedSoFar (length tweets)); CacheWrite tweets]
            end in
          match next_token with
          | Some token =>
              match fetch_loop fuel' tl user_id (Some token) tweets w with
              | Some (result, w', evs) => Some (result, w', call :: progress ++ evs)
              | None => None
              end
          | None => Some (tweets, w, call :: progress)
          end
      end
  end.

(** Everything from "Fetching tweets via API..." on. *)
Definition fetch_fresh (fuel : nat) (tl : timeline) (user_id : string)
    (w : fetch_world) (before : list fetch_event)
  : option (list tweet * fetch_world * list fetch_event) :=
  match fetch_loop fuel tl user_id None [] w with
  | Some (tweets, w', evs) =>
      Some (tweets, w',
            before ++ [FetchPrint MsgFetching] ++ evs
            ++ [FetchPrint (MsgTotalFetched (length tweets)); FetchPrint MsgSavedToCache])
  | None => None
  end.

Definition fetch_tweets_from_api (fuel : nat) (tl : timeline) (user_id : string)
    (w : fetch_world) : option (list tweet * fetch_world * list fetch_event) :=
  match cache_file w with
  | Some cached =>
      let before :=
        [CacheExists true; CacheRead cached;
         FetchPrint (MsgLoadedFromCache (length cached)); FetchInput (typed w)] in
      if String.eqb (PyStr.lower (PyStr.strip (typed w))) "y"
      then Some (cached, w, before)
      else fetch_fresh fuel tl user_id w before
  | None => fetch_fresh fuel tl user_id w [CacheExists false]
  end.

(** The contents written to the cache file, and the pagination tokens of
    the calls made, in order. *)
Definition cache_writes (evs : list fetch_event) : list (list tweet) :=
  omap (fun e => match e with CacheWrite l => Some l | _ => None end) evs.

Definition page_requests (evs : list fetch_event) : list (option string) :=
  omap (fun e => match e with GetUsersTweets t _ => Some t | _ => None end) evs.

(** The user accepts the cache: the reply is [y] or [Y], whitespace around
    it aside. *)
Definition accepts_cache (w : fetch_world) : Prop :=
  PyStr.lower (PyStr.strip (typed w)) = "y".

(** From its [n]-th call on, made with [token], the timeline serves the
    pages [pages], each with the token of the next, and then [last]. *)
Fixpoint serves (tl : timeline) (user_id : string) (n : nat) (token : option string)
    (pages : list (list tweet * string)) (last : page_result) : Prop :=
  match pages with
  | [] => get_users_tweets tl n user_id token = last
  | (data, next) :: pages' =>
      get_users_tweets tl n user_id token = Page data (Some next)
      /\ serves tl user_id (S n) (Some next) pages' last
  end.

(** [r] ends the loop: an error, or a page without a next token. *)
Definition ends_fetch (r : page_result) : Prop :=
  match r with
  | Page _ (Some _) => False
  | _ => True
  end.

Definition data_of (r : page_result) : list tweet :=
  match r with
  | Page data _ => data
  | PageError _ => []
  end.

(** Two pages of one tweet each, then an outage; and a cache file left by
    an earlier fetch, with a user who declines it. *)
Definition sample_timeline : timeline :=
  Timeline (fun n _ _ =>
              match n with
              | 0 => Page [Sample.hello] (Some "t1")
              | 1 => Page [Sample.crypto] (Some "t2")
              | _ => PageError "503 Service Unavailable"
              end).

Definition sample_cached : fetch_world :=
  {| cache_file := Some [Sample.hello_again]; page_calls := 0; typed := "n" |}.

(** * Properties *)

(** ** The effect monad *)

Lemma bind_run {A B} (m : M A) (k : A -> M B) (w : world) :
  bind m k w =
  (value (k (value (m w)) (final (m w))),
   final (k (value (m w)) (final (m w))),
   trace (m w) ++ trace (k (value (m w)) (final (m w)))).
Proof.
  unfold bind, value, final, trace.
  destruct (m w) as [[a w1] e1]; simpl.
  destruct (k a w1) as [[b w2] e2]; reflexivity.
Qed.

Lemma trace_bind {A B} (m : M A) (k : A -> M B) w :
  trace (bind m k w) = trace (m w) ++ trace (k (value (m w)) (final (m w))).
Proof. rewrite bind_run; reflexivity. Qed.

Lemma final_bind {A B} (m : M A) (k : A -> M B) w :
  final (bind m k w) = final (k (value (m w)) (final (m w))).
Proof. rewrite bind_run; reflexivity. Qed.

Lemma value_bind {A B} (m : M A) (k : A -> M B) w :
  value (bind m k w) = value (k (value (m w)) (final (m w))).
Proof. rewrite bind_run; reflexivity. Qed.

Lemma trace_triple {A} (a : A) w evs : trace (a, w, evs) = evs.
Proof. reflexivity. Qed.

Lemma final_triple {A} (a : A) w evs : final (a, w, evs) = w.
Proof. reflexivity. Qed.

Lemma value_triple {A} (a : A) w evs : value (a, w, evs) = a.
Proof. reflexivity. Qed.

(** ** Traces made of console output only *)

Lemma prints_are_silent evs :
  Forall is_print evs ->
  deletions evs = [] /\ ledger_accesses evs = [] /\ sleeps evs = []
  /\ writes evs = [].
Proof.
  induction 1 as [|e evs He _ IH]; [done|].
  destruct e; done.
Qed.

Lemma deletions_app e1 e2 : deletions (e1 ++ e2) = deletions e1 ++ deletions e2.
Proof. apply omap_app. Qed.

Lemma succeeded_app e1 e2 : succeeded (e1 ++ e2) = succeeded e1 ++ succeeded e2.
Proof. apply omap_app. Qed.

Lemma first_attempts_app e1 e2 :
  first_attempts (e1 ++ e2) = first_attempts e1 ++ first_attempts e2.
Proof. apply omap_app. Qed.

Lemma sleeps_app e1 e2 : sleeps (e1 ++ e2) = sleeps e1 ++ sleeps e2.
Proof. apply omap_app. Qed.

Lemma writes_app e1 e2 : writes (e1 ++ e2) = writes e1 ++ writes e2.
Proof. apply omap_app. Qed.

Lemma ledger_accesses_app e1 e2 :
  ledger_accesses (e1 ++ e2) = ledger_accesses e1 ++ ledger_accesses e2.
Proof. apply List.filter_app. Qed.

(** ** The dry run *)

Lemma print_preview_run l : forall i w,
  print_preview i l w =
  (tt, w, imap (fun k t => Print (MsgPreview (i + k) (created_at t) (text_preview 80 t))) l).
Proof.
  induction l as [|t l IH]; intros i w; [reflexivity|].
  simpl. rewrite bind_run. simpl. rewrite IH. simpl.
  rewrite Nat.add_0_r. do 2 f_equal.
  apply imap_ext. intros k x _. simpl. do 2 f_equal. lia.
Qed.

Lemma imap_print (f : nat -> tweet -> message) l :
  Forall is_print (imap (fun k t => Print (f k t)) l).
Proof.
  revert f. induction l as [|t l IH]; intros f; simpl.
  - constructor.
  - constructor; [exact I|]. apply (IH (fun k => f (S k))).
Qed.

Lemma preview_lines_print l : Forall is_print (preview_lines l).
Proof. apply imap_print. Qed.

Lemma dry_run_report_run tweets w :
  dry_run_report tweets w =
  (tt, w,
   [Print MsgRule; Print (MsgDryRun (length tweets)); Print MsgRule]
   ++ preview_lines (take PREVIEW tweets)
   ++ (if (PREVIEW <? length tweets)%nat
       then [Print (MsgMore (length tweets - PREVIEW))] else [])
   ++ [Print MsgRunWithoutDryRun]).
Proof.
  unfold dry_run_report.
  rewrite !bind_run. simpl. rewrite print_preview_run. simpl.
  destruct (PREVIEW <? length tweets)%nat; reflexivity.
Qed.

Lemma dry_run_run c t ts skip_confirm w :
  let tweets := t :: ts in
  delete_tweets c tweets true skip_confirm w =
  (tt, w,
   [Print MsgRule; Print (MsgDryRun (length tweets)); Print MsgRule]
   ++ preview_lines (take PREVIEW tweets)
   ++ (if (PREVIEW <? length tweets)%nat
       then [Print (MsgMore (length tweets - PREVIEW))] else [])
   ++ [Print MsgRunWithoutDryRun]).
Proof.
  intros tweets. unfold delete_tweets. simpl length at 1.
  change (S (length ts) =? 0)%nat with false. cbv iota.
  apply dry_run_report_run.
Qed.

Lemma dry_run_prints c t ts skip_confirm w :
  Forall is_print (trace (delete_tweets c (t :: ts) true skip_confirm w)).
Proof.
  rewrite dry_run_run, trace_triple.
  do 3 (apply Forall_cons; split; [exact I|]).
  apply Forall_app; split; [apply preview_lines_print|].
  apply Forall_app; split.
  - destruct (PREVIEW <? length (t :: ts))%nat; repeat constructor.
  - repeat constructor.
Qed.

(** C9. A dry run on a non-empty candidate list leaves the world as it
    found it (ledger file included), and its trace is the count line, one
    preview line for each of the first [PREVIEW] = 20 candidates, the count
    of the candidates not shown, and the closing hint: console output only,
    so no API call, no access to the ledger file and no sleep. *)
Theorem dry_run_only_reports (c : client) (t : tweet) (ts : list tweet)
    (skip_confirm : bool) (w : world) :
  let tweets := t :: ts in
  let r := delete_tweets c tweets true skip_confirm w in
  final r = w
  /\ trace r =
       [Print MsgRule; Print (MsgDryRun (length tweets)); Print MsgRule]
       ++ preview_lines (take PREVIEW tweets)
       ++ (if (PREVIEW <? length tweets)%nat
           then [Print (MsgMore (length tweets - PREVIEW))] else [])
       ++ [Print MsgRunWithoutDryRun]
  /\ length (preview_lines (take PREVIEW tweets)) <= PREVIEW
  /\ Forall is_print (trace r)
  /\ deletions (trace r) = []
  /\ ledger_accesses (trace r) = []
  /\ sleeps (trace r) = [].
Proof.
  intros tweets r.
  pose proof (dry_run_prints c t ts skip_confirm w) as Hp.
  destruct (prints_are_silent _ Hp) as (Hd & Hl & Hs & _).
  subst r tweets. rewrite (dry_run_run c t ts skip_confirm w) in *.
  rewrite final_triple, trace_triple in *.
  repeat split; try done.
  unfold preview_lines. rewrite length_imap, length_take. lia.
Qed.

(** ** The date stages of [filter_tweets] *)

Section DateStages.

Variable fromisoformat : string -> option datetime.

(** The [--before] stage keeps every tweet it cannot date. *)
Lemma keep_before_undated before_dt t :
  undated fromisoformat t -> keep_before fromisoformat before_dt t = true.
Proof.
  unfold undated, keep_before.
  destruct (PyStr.truthy (created_at t)) as [c|]; [|done].
  intros ->. reflexivity.
Qed.

(** The [--after] stage drops every tweet it cannot date. *)
Lemma keep_after_undated after_dt t :
  undated fromisoformat t -> keep_after fromisoformat after_dt t = false.
Proof.
  unfold undated, keep_after.
  destruct (PyStr.truthy (created_at t)) as [c|]; [|done].
  intros ->. reflexivity.
Qed.

Lemma stage_before_undated before_date l t :
  undated fromisoformat t -> t ∈ l ->
  forall out, (stage_before fromisoformat before_date l).2 = Some out -> t ∈ out.
Proof.
  intros Hu Hin out. unfold stage_before.
  destruct (PyStr.truthy before_date) as [b|]; simpl; [|congruence].
  destruct (fromisoformat b) as [before_dt|]; simpl; [|congruence].
  intros [= <-]. apply list_elem_of_In, List.filter_In. split.
  - by apply list_elem_of_In.
  - by apply keep_before_undated.
Qed.

Lemma after_stage_output_dated after_dt l t :
  t ∈ List.filter (keep_after fromisoformat after_dt) l ->
  ~ undated fromisoformat t.
Proof.
  intros Hin%list_elem_of_In%List.filter_In Hu. destruct Hin as [_ Hk].
  rewrite keep_after_undated in Hk; done.
Qed.

End DateStages.

(** C2 (the [--after] stage, on a tweet without [created_at]).  Whatever
    [fromisoformat] is, filtering the single tweet [Sample.hello], whose
    [created_at] is [None], with [--after 2023-01-01] either fails on the
    bound or returns the empty list: the tweet is dropped, where the
    [--before] stage ([stage_before_undated]) keeps it. *)
Theorem after_stage_drops_missing_date (fromisoformat : string -> option datetime) :
  match (filter_tweets fromisoformat [Sample.hello] None (Some "2023-01-01") None None).2 with
  | Some out => out = []
  | None => fromisoformat "2023-01-01" = None
  end.
Proof.
  unfold filter_tweets, then_stage, stage_before, stage_after, stage_contains,
    stage_exclude. simpl.
  destruct (fromisoformat "2023-01-01") as [after_dt|]; reflexivity.
Qed.

(** ** The confirmation gate *)

Lemma confirm_deletion_run skip_confirm w :
  confirm_deletion skip_confirm w =
  if skip_confirm || String.eqb (PyStr.strip (stdin w)) CONFIRMATION
  then (true, w, gate_events skip_confirm w)
  else (false, w, [Input (stdin w); Print MsgAborted]).
Proof.
  unfold confirm_deletion, gate_events. destruct skip_confirm; simpl; [reflexivity|].
  unfold bind, input. destruct (String.eqb _ _); reflexivity.
Qed.

Lemma confirmed_spec skip_confirm w :
  confirmed skip_confirm w <->
  skip_confirm || String.eqb (PyStr.strip (stdin w)) CONFIRMATION = true.
Proof.
  unfold confirmed. rewrite orb_true_iff, String.eqb_eq. reflexivity.
Qed.

(** ** Shape of a run *)

Lemma loading_run {A} (k : list log_entry -> M A) w :
  bind log_exists
    (fun present => bind (if present then read_log else ret []) k) w =
  (value (k (ledger w) w), final (k (ledger w) w),
   loading_events w ++ trace (k (ledger w) w)).
Proof.
  unfold bind, log_exists, read_log, ret, ledger, loading_events.
  destruct (log_file w) eqn:E; simpl; rewrite ?E; simpl;
    destruct (k _ w) as [[b w2] e2]; reflexivity.
Qed.

(** A run that is not confirmed stops at the gate. *)
Lemma run_not_confirmed c t ts w :
  PyStr.strip (stdin w) <> CONFIRMATION ->
  delete_tweets c (t :: ts) false false w =
  (tt, w, banner (length (t :: ts)) ++ [Input (stdin w); Print MsgAborted]).
Proof.
  intros Hne. unfold delete_tweets.
  change (length (t :: ts) =? 0)%nat with false. cbv iota.
  unfold bind at 1 2 3. unfold print at 1 2 3. unfold bind.
  rewrite confirm_deletion_run.
  destruct (String.eqb_spec (PyStr.strip (stdin w)) CONFIRMATION) as [E|_];
    [done|reflexivity].
Qed.

(** A confirmed run on candidates that are all in the ledger. *)
Lemma run_nothing_left c t ts skip_confirm w :
  confirmed skip_confirm w ->
  remaining_of (ledger w) (t :: ts) = [] ->
  delete_tweets c (t :: ts) false skip_confirm w =
  (tt, w, prologue (t :: ts) skip_confirm w ++ [Print MsgAllDeleted]).
Proof.
  intros Hc%confirmed_spec Hrem. unfold delete_tweets.
  change (length (t :: ts) =? 0)%nat with false. cbv iota.
  unfold bind at 1 2 3. unfold print at 1 2 3. unfold bind.
  rewrite confirm_deletion_run, Hc.
  unfold delete_confirmed. rewrite loading_run.
  fold (remaining_of (ledger w) (t :: ts)). rewrite Hrem.
  unfold prologue, skipping_events. rewrite Hrem. simpl length.
  unfold bind, print, ret.
  destruct (0 <? _)%nat; simpl; rewrite <- ?app_assoc; reflexivity.
Qed.

(** A confirmed run that enters the deletion loop. *)
Lemma run_loop c tweets skip_confirm w :
  confirmed skip_confirm w ->
  remaining_of (ledger w) tweets <> [] ->
  let r := main_loop c tweets w in
  delete_tweets c tweets false skip_confirm w =
  (tt, wrote (log (value r).2) (final r),
   (prologue tweets skip_confirm w
    ++ [Print (MsgDeleting (length (remaining_of (ledger w) tweets)))])
   ++ trace r ++ epilogue (value r).2).
Proof.
  intros Hc%confirmed_spec Hrem r. unfold delete_tweets.
  assert (Hlen : (length tweets =? 0)%nat = false).
  { apply Nat.eqb_neq. intros H. apply Hrem.
    apply length_zero_iff_nil in H. by rewrite H. }
  rewrite Hlen.
  unfold bind at 1 2 3. unfold print at 1 2 3. unfold bind.
  rewrite confirm_deletion_run, Hc.
  unfold delete_confirmed. rewrite loading_run.
  fold (remaining_of (ledger w) tweets).
  assert (Hlen' : (length (remaining_of (ledger w) tweets) =? 0)%nat = false).
  { apply Nat.eqb_neq. intros H. by apply length_zero_iff_nil in H. }
  rewrite Hlen'.
  unfold prologue, skipping_events.
  rewrite (bind_run _ _ w), (bind_run (print _)), (bind_run (delete_loop _ _ _ _ _)).
  fold (main_loop c tweets w). fold r.
  assert (Hs : forall n, (if (0 <? n)%nat then print (MsgSkipping n) else ret tt) w
                         = (tt, w, if (0 <? n)%nat then [Print (MsgSkipping n)] else [])).
  { intros n. destruct (0 <? n)%nat; reflexivity. }
  rewrite Hs. simpl. rewrite <- !app_assoc. reflexivity.
Qed.

Lemma prologue_quiet tweets skip_confirm w :
  deletions (prologue tweets skip_confirm w) = []
  /\ succeeded (prologue tweets skip_confirm w) = []
  /\ first_attempts (prologue tweets skip_confirm w) = []
  /\ sleeps (prologue tweets skip_confirm w) = []
  /\ writes (prologue tweets skip_confirm w) = [].
Proof.
  unfold prologue, banner, gate_events, loading_events, skipping_events.
  destruct skip_confirm, (log_file w), (0 <? _)%nat; done.
Qed.

(** Every run either leaves the world alone, without an API call, a sleep
    or a write, or is a confirmed run around [main_loop]. *)
Lemma run_cases c tweets dry_run skip_confirm w :
  let r := delete_tweets c tweets dry_run skip_confirm w in
  (final r = w /\ deletions (trace r) = [] /\ sleeps (trace r) = []
   /\ writes (trace r) = []
   /\ (tweets = [] \/ dry_run = true \/ ~ confirmed skip_confirm w
       \/ remaining_of (ledger w) tweets = []))
  \/ (dry_run = false /\ confirmed skip_confirm w
      /\ remaining_of (ledger w) tweets <> []
      /\ r = (tt, wrote (log (value (main_loop c tweets w)).2)
                       (final (main_loop c tweets w)),
              (prologue tweets skip_confirm w
               ++ [Print (MsgDeleting (length (remaining_of (ledger w) tweets)))])
              ++ trace (main_loop c tweets w)
              ++ epilogue (value (main_loop c tweets w)).2)).
Proof.
  intros r. destruct tweets as [|t ts].
  { left. subst r. repeat split; try reflexivity. by left. }
  destruct dry_run.
  { left. subst r.
    destruct (prints_are_silent _ (dry_run_prints c t ts skip_confirm w))
      as (Hd & _ & Hs & Hw).
    repeat split; try done.
    - by rewrite dry_run_run.
    - right. by left. }
  destruct (decide (remaining_of (ledger w) (t :: ts) = [])) as [Hrem|Hrem].
  - destruct skip_confirm.
    + left. subst r. rewrite run_nothing_left; [|by left|done].
      rewrite final_triple, trace_triple, deletions_app, sleeps_app, writes_app.
      destruct (prologue_quiet (t :: ts) true w) as (-> & _ & _ & -> & ->).
      repeat split; try reflexivity. by do 3 right.
    + destruct (decide (PyStr.strip (stdin w) = CONFIRMATION)) as [Hc|Hc].
      * left. subst r. rewrite run_nothing_left; [|by right|done].
        rewrite final_triple, trace_triple, deletions_app, sleeps_app, writes_app.
        destruct (prologue_quiet (t :: ts) false w) as (-> & _ & _ & -> & ->).
        repeat split; try reflexivity. by do 3 right.
      * left. subst r. rewrite run_not_confirmed by done.
        repeat split; try reflexivity. by do 3 right.
  - destruct (decide (skip_confirm = true \/ PyStr.strip (stdin w) = CONFIRMATION))
      as [Hc|Hc].
    + right. repeat split; try done. subst r. by apply run_loop.
    + left. destruct skip_confirm; [by destruct Hc; left|].
      subst r. rewrite run_not_confirmed by (intros E; apply Hc; by right).
      repeat split; try reflexivity. right; right; left. exact Hc.
Qed.

(** ** The deletion loop *)

Lemma proactive_pause_run st w :
  proactive_pause st w =
  if (RATE_LIMIT_DELETES - 2 <=? batch_count st)%nat
  then (reset_batch st, wrote (log st) w,
        [Print MsgApproaching; LogWrite (log st); Sleep (RATE_LIMIT_WINDOW + 5)])
  else (st, w, []).
Proof.
  unfold proactive_pause. destruct (_ <=? _)%nat; reflexivity.
Qed.

Lemma loop_body_run c total i t st w :
  loop_body c total i t st w =
  let a := attempt_delete c total i t st w in
  match (value a).1 with
  | Break => a
  | Next =>
      let p := proactive_pause (value a).2 (final a) in
      ((Next, value p), final p, trace a ++ trace p)
  end.
Proof.
  unfold loop_body, bind, value, final, trace.
  destruct (attempt_delete c total i t st w) as [[[[|] st1] w1] e1]; simpl.
  - destruct (proactive_pause st1 w1) as [[st2 w2] e2]; simpl.
    by rewrite app_nil_r.
  - by rewrite app_nil_r.
Qed.

Lemma delete_loop_nil c total i st w :
  delete_loop c total i [] st w = ((Next, st), w, []).
Proof. reflexivity. Qed.

Lemma delete_loop_cons c total i t rest st w :
  delete_loop c total i (t :: rest) st w =
  let b := loop_body c total i t st w in
  match (value b).1 with
  | Break => b
  | Next =>
      let r := delete_loop c total (S i) rest (value b).2 (final b) in
      (value r, final r, trace b ++ trace r)
  end.
Proof.
  simpl. unfold bind, value, final, trace.
  destruct (loop_body c total i t st w) as [[[[|] st1] w1] e1]; simpl.
  - destruct (delete_loop c total (S i) rest st1 w1) as [[v w2] e2]; reflexivity.
  - by rewrite app_nil_r.
Qed.

(** One evaluation of the [try] statement, by the result of the first call,
    of the retry, and of the tests on the error message. *)
Lemma attempt_delete_run c total i t st w :
  attempt_delete c total i t st w =
  let first := delete_tweet c (api_calls w) (id t) in
  let w1 := called w in
  match first with
  | Deleted =>
      ((Next, logged t (clock w1 (api_calls w1)) st), w1,
       [DeleteTweet First (id t) first;
        Print (MsgDeleted i total (text_preview 60 t))])
  | TooManyRequests _ =>
      let second := delete_tweet c (api_calls w1) (id t) in
      let w2 := called (wrote (log st) w1) in
      let waited :=
        [DeleteTweet First (id t) first; Print MsgRateLimited;
         LogWrite (log st); Sleep (RATE_LIMIT_WINDOW + 5);
         DeleteTweet Retry (id t) second] in
      match second with
      | Deleted =>
          ((Next, logged t (clock w2 (api_calls w2)) (reset_batch st)), w2, waited)
      | Forbidden e =>
          if exhausted_retry e then
            ((Break, reset_batch st), wrote (log st) w2,
             waited ++ [Print MsgNoCreditsRetry; Print MsgRerunRetry;
                        LogWrite (log st)])
          else
            ((Next, count_failed (reset_batch st)), w2,
             waited ++ [Print (MsgFailedAfterRetry i total e)])
      | TooManyRequests e | NotFound e | OtherError e =>
          ((Next, count_failed (reset_batch st)), w2,
           waited ++ [Print (MsgFailedAfterRetry i total e)])
      end
  | NotFound _ =>
      ((Next, count_deleted st), w1,
       [DeleteTweet First (id t) first; Print (MsgNotFound i total (id t))])
  | Forbidden e =>
      if exhausted_forbidden e then
        ((Break, st), wrote (log st) w1,
         [DeleteTweet First (id t) first; Print MsgNoCredits; Print MsgRerun;
          LogWrite (log st)])
      else
        ((Next, count_failed st), w1,
         [DeleteTweet First (id t) first; Print (MsgFailed i total e)])
  | OtherError e =>
      if exhausted_other e then
        ((Break, st), wrote (log st) w1,
         [DeleteTweet First (id t) first; Print MsgNoCredits; Print MsgRerun;
          LogWrite (log st)])
      else
        ((Next, count_failed st), w1,
         [DeleteTweet First (id t) first; Print (MsgFailed i total e)])
  end.
Proof.
  unfold attempt_delete, record_deleted.
  repeat unfold bind, call_delete, print, write_log, sleep, now, ret.
  cbn beta iota zeta.
  destruct (delete_tweet c (api_calls w) (id t)) as [|m|m|m|m]; cbn.
  - reflexivity.
  - destruct (delete_tweet c (S (api_calls w)) (id t)) as [|m2|m2|m2|m2]; cbn;
      try reflexivity.
    destruct (exhausted_retry m2); reflexivity.
  - reflexivity.
  - destruct (exhausted_forbidden m); reflexivity.
  - destruct (exhausted_other m); reflexivity.
Qed.

(** Case analysis on [attempt_delete c total i t st w]. *)
Ltac attempt_cases c t w :=
  rewrite ?attempt_delete_run; cbv zeta;
  let m := fresh "msg" in
  let m2 := fresh "msg" in
  let H1 := fresh "Hfirst" in
  let H2 := fresh "Hretry" in
  let Hx := fresh "Hexh" in
  destruct (delete_tweet c (api_calls w) (id t)) as [|m|m|m|m] eqn:H1;
  [ | destruct (delete_tweet c (api_calls (called w)) (id t))
        as [|m2|m2|m2|m2] eqn:H2;
      [ | | | destruct (exhausted_retry m2) eqn:Hx | ]
    | | destruct (exhausted_forbidden m) eqn:Hx
    | destruct (exhausted_other m) eqn:Hx ];
  cbn [value final trace fst snd].

(** The loop rule.  [Head] holds before each iteration, [Mid] between the
    [try] statement and the proactive pause, [Stop] after a [break]; each is
    a property of the candidates handled so far, the local variables, the
    world, and the events emitted so far. *)
Section LoopRule.

Variables (c : client) (total : nat).
Variables Head Mid Stop : list tweet -> locals -> world -> list event -> Prop.

Hypothesis attempt_ok : forall seen i t st w evs,
  Head seen st w evs ->
  let a := attempt_delete c total i t st w in
  match (value a).1 with
  | Next => Mid (seen ++ [t]) (value a).2 (final a) (evs ++ trace a)
  | Break => Stop (seen ++ [t]) (value a).2 (final a) (evs ++ trace a)
  end.

Hypothesis pause_ok : forall seen st w evs,
  Mid seen st w evs ->
  let p := proactive_pause st w in
  Head seen (value p) (final p) (evs ++ trace p).

Lemma delete_loop_rule : forall remaining seen i st w evs,
  Head seen st w evs ->
  let r := delete_loop c total i remaining st w in
  match (value r).1 with
  | Next => Head (seen ++ remaining) (value r).2 (final r) (evs ++ trace r)
  | Break =>
      exists handled t rest,
        remaining = handled ++ t :: rest
        /\ Stop (seen ++ handled ++ [t]) (value r).2 (final r) (evs ++ trace r)
  end.
Proof.
  induction remaining as [|t rest IH]; intros seen i st w evs HI.
  - simpl. by rewrite !app_nil_r.
  - rewrite delete_loop_cons, loop_body_run.
    pose proof (attempt_ok seen i t st w evs HI) as Ha. cbv zeta in Ha |- *.
    destruct (attempt_delete c total i t st w) as [[[[|] st1] w1] e1];
      cbn [value final trace fst snd] in Ha |- *.
    + pose proof (pause_ok _ _ _ _ Ha) as Hp. cbv zeta in Hp.
      destruct (proactive_pause st1 w1) as [[st2 w2] e2];
        cbn [value final trace fst snd] in Hp |- *.
      specialize (IH (seen ++ [t]) (S i) st2 w2 _ Hp). cbv zeta in IH.
      destruct (delete_loop c total (S i) rest st2 w2) as [[[[|] st3] w3] e3];
        cbn [value final trace fst snd] in IH |- *.
      * rewrite <- !app_assoc in IH. rewrite <- !app_assoc. exact IH.
      * destruct IH as (handled & t' & rest' & -> & IH).
        exists (t :: handled), t', rest'. split; [reflexivity|].
        rewrite <- !app_assoc in IH. rewrite <- !app_assoc. exact IH.
    + exists [], t, rest. split; [reflexivity|]. exact Ha.
Qed.

End LoopRule.

(** The loop rule for a property that holds at all three points. *)
Lemma delete_loop_invariant (c : client) (total : nat)
    (I : list tweet -> locals -> world -> list event -> Prop) :
  (forall seen i t st w evs,
      I seen st w evs ->
      let a := attempt_delete c total i t st w in
      I (seen ++ [t]) (value a).2 (final a) (evs ++ trace a)) ->
  (forall seen st w evs,
      I seen st w evs ->
      let p := proactive_pause st w in
      I seen (value p) (final p) (evs ++ trace p)) ->
  forall remaining seen i st w evs,
    I seen st w evs ->
    let r := delete_loop c total i remaining st w in
    exists handled rest,
      remaining = handled ++ rest
      /\ I (seen ++ handled) (value r).2 (final r) (evs ++ trace r)
      /\ ((value r).1 = Next -> rest = []).
Proof.
  intros Hattempt Hpause remaining seen i st w evs HI r.
  pose proof (delete_loop_rule c total I I I) as Hrule.
  assert (Ha : forall seen i t st w evs,
             I seen st w evs ->
             let a := attempt_delete c total i t st w in
             match (value a).1 with
             | Next => I (seen ++ [t]) (value a).2 (final a) (evs ++ trace a)
             | Break => I (seen ++ [t]) (value a).2 (final a) (evs ++ trace a)
             end).
  { intros seen' i' t' st' w' evs' H'. cbv zeta.
    destruct (value (attempt_delete c total i' t' st' w')).1 eqn:E;
      by apply Hattempt. }
  specialize (Hrule Ha Hpause remaining seen i st w evs HI).
  cbv zeta in Hrule. fold r in Hrule.
  destruct (value r).1.
  - exists remaining, []. by rewrite app_nil_r.
  - destruct Hrule as (handled & t & rest & -> & H).
    exists (handled ++ [t]), rest. rewrite <- !app_assoc. done.
Qed.

(** ** The ledger kept in memory *)

Lemma tracks_successes_step log0 seen t st w evs :
  tracks_successes log0 seen st w evs ->
  forall st' w' evs',
    (log st' = log st /\ succeeded evs' = []
     \/ exists ts, log st' = log st ++ [entry_of t ts] /\ succeeded evs' = [id t]) ->
    tracks_successes log0 (seen ++ [t]) st' w' (evs ++ evs').
Proof.
  intros (new & Hlog & Hids & Hall & Hsub) st' w' evs' Hstep.
  assert (Hall' : Forall (fun e => exists t0 ts, t0 ∈ seen ++ [t] /\ e = entry_of t0 ts) new).
  { eapply Forall_impl; [exact Hall|]. intros e (t0 & ts & Hin & ->).
    exists t0, ts. split; [|reflexivity]. apply elem_of_app. by left. }
  destruct Hstep as [[Hl Hs]|(ts & Hl & Hs)].
  - exists new. rewrite Hl, succeeded_app, Hs, app_nil_r, fmap_app.
    repeat split; try done. by apply sublist_inserts_r.
  - exists (new ++ [entry_of t ts]).
    rewrite Hl, Hlog, succeeded_app, Hs. unfold ledger_ids in *.
    rewrite !fmap_app, Hids, app_assoc. repeat split; try done.
    + apply Forall_app. split; [done|]. constructor; [|constructor].
      exists t, ts. split; [|reflexivity]. apply elem_of_app. right.
      by apply list_elem_of_singleton.
    + apply sublist_app; [by rewrite <- Hids|done].
Qed.

Lemma tracks_successes_quiet log0 seen st w evs :
  tracks_successes log0 seen st w evs ->
  forall st' w' evs',
    log st' = log st -> succeeded evs' = [] ->
    tracks_successes log0 seen st' w' (evs ++ evs').
Proof.
  intros (new & Hlog & Hids & Hall & Hsub) st' w' evs' Hl Hs.
  exists new. rewrite Hl, succeeded_app, Hs, app_nil_r. done.
Qed.

Lemma tracks_successes_attempt c total log0 seen i t st w evs :
  tracks_successes log0 seen st w evs ->
  let a := attempt_delete c total i t st w in
  tracks_successes log0 (seen ++ [t]) (value a).2 (final a) (evs ++ trace a).
Proof.
  intros HI. cbv zeta.
  apply (tracks_successes_step _ _ _ _ _ _ HI).
  attempt_cases c t w;
    solve [ left; split; reflexivity | right; eexists; split; reflexivity ].
Qed.

Lemma tracks_successes_pause log0 seen st w evs :
  tracks_successes log0 seen st w evs ->
  let p := proactive_pause st w in
  tracks_successes log0 seen (value p) (final p) (evs ++ trace p).
Proof.
  intros HI. cbv zeta. rewrite proactive_pause_run.
  destruct (_ <=? _)%nat; cbn [value final trace fst snd];
    by apply (tracks_successes_quiet _ _ _ _ _ HI).
Qed.

Lemma loop_tracks_successes c total log0 remaining seen i st w evs :
  tracks_successes log0 seen st w evs ->
  let r := delete_loop c total i remaining st w in
  exists handled rest,
    remaining = handled ++ rest
    /\ tracks_successes log0 (seen ++ handled) (value r).2 (final r) (evs ++ trace r).
Proof.
  intros HI r.
  destruct (delete_loop_invariant c total (tracks_successes log0)
              (tracks_successes_attempt c total log0)
              (tracks_successes_pause log0) remaining seen i st w evs HI)
    as (handled & rest & Hsplit & H & _).
  by exists handled, rest.
Qed.

(** The ledger file after a confirmed run that entered its loop: the
    loaded ledger, then one entry per call that returned. *)
Lemma run_ledger c tweets skip_confirm w :
  confirmed skip_confirm w ->
  remaining_of (ledger w) tweets <> [] ->
  let r := delete_tweets c tweets false skip_confirm w in
  exists new,
    log_file (final r) = Some (ledger w ++ new)
    /\ ledger_ids new = succeeded (trace r)
    /\ Forall (fun e => exists t ts,
                 t ∈ remaining_of (ledger w) tweets /\ e = entry_of t ts) new
    /\ ledger_ids new `sublist_of` (id <$> remaining_of (ledger w) tweets).
Proof.
  intros Hc Hrem r. subst r. rewrite run_loop by done.
  rewrite final_triple, trace_triple.
  destruct (loop_tracks_successes c (length (remaining_of (ledger w) tweets))
              (ledger w) (remaining_of (ledger w) tweets) [] 1
              (initial_locals (ledger w)) w
              (prologue tweets skip_confirm w
               ++ [Print (MsgDeleting (length (remaining_of (ledger w) tweets)))]))
    as (handled & rest & Hsplit & new & Hlog & Hids & Hall & Hsub).
  { exists []. rewrite app_nil_r, succeeded_app.
    destruct (prologue_quiet tweets skip_confirm w) as (_ & -> & _).
    repeat split; done. }
  fold (main_loop c tweets w) in *.
  exists new. split; [cbn [wrote log_file]; by rewrite Hlog|].
  rewrite app_assoc, succeeded_app, <- Hids. split; [symmetry; apply app_nil_r|].
  rewrite Hsplit. split.
  - eapply Forall_impl; [exact Hall|]. intros e (t & ts & Hin & ->).
    exists t, ts. split; [|done]. apply elem_of_app. by left.
  - rewrite fmap_app. by apply sublist_inserts_r.
Qed.

(** ** Candidates and the loaded ledger *)

Lemma elem_of_ids_of_log i l : i ∈ ids_of_log l <-> i ∈ ledger_ids l.
Proof. unfold ids_of_log, ledger_ids. apply elem_of_list_to_set. Qed.

Lemma elem_of_remaining_of t log0 tweets :
  t ∈ remaining_of log0 tweets <-> (id t ∉ ledger_ids log0) /\ t ∈ tweets.
Proof.
  unfold remaining_of, not_yet_deleted.
  rewrite list_elem_of_filter, elem_of_ids_of_log. reflexivity.
Qed.

Lemma remaining_of_nil log0 tweets :
  remaining_of log0 tweets = [] <->
  forall t, t ∈ tweets -> id t ∈ ledger_ids log0.
Proof.
  split.
  - intros Hnil t Hin.
    destruct (decide (id t ∈ ledger_ids log0)) as [|Hn]; [done|].
    assert (t ∈ remaining_of log0 tweets) as Ht by by apply elem_of_remaining_of.
    rewrite Hnil in Ht. by apply not_elem_of_nil in Ht.
  - intros Hall. apply elem_of_nil_inv. intros t [Hn Hin]%elem_of_remaining_of.
    by apply Hn, Hall.
Qed.


(** ** Calls are made for candidates only *)




Lemma ledger_of_file w l : log_file w = Some l -> ledger w = l.
Proof. unfold ledger. by intros ->. Qed.

(** ** Runs in which every call returns *)

Lemma flawless_app_l e1 e2 : flawless (e1 ++ e2) -> flawless e1.
Proof. intros H a i x Hin. apply (H a i x), elem_of_app. by left. Qed.

Lemma flawless_app_r e1 e2 : flawless (e1 ++ e2) -> flawless e2.
Proof. intros H a i x Hin. apply (H a i x), elem_of_app. by right. Qed.

Lemma not_flawless evs a i x :
  x <> Deleted -> DeleteTweet a i x ∈ evs -> ~ flawless evs.
Proof. intros Hx Hin H. by apply Hx, (H a i x). Qed.

Lemma flawless_attempt c total seen i t st w evs :
  flawless_so_far seen st w evs ->
  let a := attempt_delete c total i t st w in
  match (value a).1 with
  | Next => flawless_so_far (seen ++ [t]) (value a).2 (final a) (evs ++ trace a)
  | Break => flawed (seen ++ [t]) (value a).2 (final a) (evs ++ trace a)
  end.
Proof.
  unfold flawless_so_far, flawed. intros HI.
  attempt_cases c t w.
  1: { intros Hf. rewrite succeeded_app, fmap_app, HI; [done|].
       by apply flawless_app_l in Hf. }
  all: try intros Hf.
  all: try (exfalso; revert Hf).
  all: eapply (not_flawless _ First (id t));
    [|apply elem_of_app; right; apply list_elem_of_here]; discriminate.
Qed.

Lemma flawless_pause seen st w evs :
  flawless_so_far seen st w evs ->
  let p := proactive_pause st w in
  flawless_so_far seen (value p) (final p) (evs ++ trace p).
Proof.
  unfold flawless_so_far. intros HI. cbv zeta. rewrite proactive_pause_run.
  destruct (_ <=? _)%nat; cbn [value final trace fst snd];
    intros Hf%flawless_app_l; rewrite succeeded_app, HI by done; apply app_nil_r.
Qed.

(** After a confirmed run in which every call returned, every candidate id
    is in the ledger file. *)
Lemma flawless_run_ledgers_all c tweets skip_confirm w :
  confirmed skip_confirm w ->
  let r := delete_tweets c tweets false skip_confirm w in
  flawless (trace r) ->
  forall t, t ∈ tweets -> id t ∈ ledger_ids (ledger (final r)).
Proof.
  intros Hc r Hf t Hin.
  destruct (decide (remaining_of (ledger w) tweets = [])) as [Hnil|Hrem].
  { subst r. destruct (run_cases c tweets false skip_confirm w)
      as [(-> & _)|(_ & _ & Hrem & _)]; [|done].
    by apply (remaining_of_nil (ledger w) tweets). }
  destruct (run_ledger c tweets skip_confirm w Hc Hrem)
    as (new & Hfile & Hids & _). fold r in Hfile, Hids.
  rewrite (ledger_of_file _ _ Hfile).
  unfold ledger_ids. rewrite fmap_app. apply elem_of_app.
  destruct (decide (id t ∈ ledger_ids (ledger w))) as [|Hnot]; [by left|right].
  fold (ledger_ids new). rewrite Hids.
  assert (Hs : succeeded (trace r) = id <$> remaining_of (ledger w) tweets).
  { subst r. rewrite run_loop in Hf |- * by done.
    rewrite trace_triple in Hf |- *.
    rewrite app_assoc in Hf |- *. rewrite succeeded_app.
    change (succeeded (epilogue _)) with (@nil string). rewrite app_nil_r.
    apply flawless_app_l in Hf.
    pose proof (delete_loop_rule c (length (remaining_of (ledger w) tweets))
      flawless_so_far flawless_so_far flawed
      (flawless_attempt c _) flawless_pause
      (remaining_of (ledger w) tweets) [] 1 (initial_locals (ledger w)) w
      (prologue tweets skip_confirm w
       ++ [Print (MsgDeleting (length (remaining_of (ledger w) tweets)))]))
      as Hrule.
    cbv zeta in Hrule. fold (main_loop c tweets w) in Hrule.
    assert (H0 : flawless_so_far [] (initial_locals (ledger w)) w
                   (prologue tweets skip_confirm w
                    ++ [Print (MsgDeleting (length (remaining_of (ledger w) tweets)))])).
    { intros _. rewrite succeeded_app.
      by destruct (prologue_quiet tweets skip_confirm w) as (_ & -> & _). }
    specialize (Hrule H0).
    destruct (value (main_loop c tweets w)).1.
    - by apply Hrule.
    - destruct Hrule as (? & ? & ? & _ & Hflawed). by destruct Hflawed. }
  rewrite Hs. apply list_elem_of_fmap. exists t. split; [done|].
  by apply elem_of_remaining_of.
Qed.

(** C1. (a) When every candidate id is in the ledger the run starts from,
    the run makes no API call and leaves the ledger file as it is, whatever
    the flags.  (b) In particular: after a confirmed, not dry run in which
    every API call returned, a second run on the same candidates, started
    from the ledger file the first run left, makes no API call and leaves
    the file as it is, whatever the API, the flags or the input then are. *)
Theorem rerun_on_ledgered_candidates_is_idle :
  (forall (c : client) (tweets : list tweet) (dry_run skip_confirm : bool) (w : world),
      (forall t, t ∈ tweets -> id t ∈ ledger_ids (ledger w)) ->
      let r := delete_tweets c tweets dry_run skip_confirm w in
      deletions (trace r) = [] /\ log_file (final r) = log_file w)
  /\ (forall (c1 : client) (tweets : list tweet) (skip_confirm1 : bool) (w1 : world),
         confirmed skip_confirm1 w1 ->
         let r1 := delete_tweets c1 tweets false skip_confirm1 w1 in
         flawless (trace r1) ->
         forall (c2 : client) (dry_run2 skip_confirm2 : bool) (w2 : world),
           log_file w2 = log_file (final r1) ->
           let r2 := delete_tweets c2 tweets dry_run2 skip_confirm2 w2 in
           deletions (trace r2) = [] /\ log_file (final r2) = log_file w2).
Proof.
  assert (Ha : forall c tweets dry_run skip_confirm w,
             (forall t, t ∈ tweets -> id t ∈ ledger_ids (ledger w)) ->
             let r := delete_tweets c tweets dry_run skip_confirm w in
             deletions (trace r) = [] /\ log_file (final r) = log_file w).
  { intros c tweets dry_run skip_confirm w Hall r.
    destruct (run_cases c tweets dry_run skip_confirm w)
      as [(Hw & Hd & _)|(_ & _ & Hrem & _)].
    - fold r in Hw, Hd. by rewrite Hw.
    - by apply remaining_of_nil in Hall. }
  split; [exact Ha|].
  intros c1 tweets skip_confirm1 w1 Hc r1 Hf c2 dry_run2 skip_confirm2 w2 Hfile.
  apply Ha. intros t Hin. unfold ledger. rewrite Hfile.
  by apply (flawless_run_ledgers_all c1 tweets skip_confirm1 w1 Hc Hf).
Qed.

Lemma rerun_on_ledgered_candidates_is_idle_witness :
  (deletions (trace (delete_tweets Sample.obliging [Sample.hello_again] false true
                       (Sample.resumed [entry_of Sample.hello "2024-01-01T00:00:00"])))
   = []
   /\ log_file (final (delete_tweets Sample.obliging [Sample.hello_again] false true
                        (Sample.resumed [entry_of Sample.hello "2024-01-01T00:00:00"])))
      = Some [entry_of Sample.hello "2024-01-01T00:00:00"])
  /\ (deletions
        (trace (delete_tweets Sample.emptied [Sample.hello; Sample.crypto] false false
                  (final (delete_tweets Sample.obliging [Sample.hello; Sample.crypto]
                            false false (Sample.fresh "DELETE")))))
      = []).
Proof.
  split.
  - apply (proj1 rerun_on_ledgered_candidates_is_idle
             Sample.obliging [Sample.hello_again] false true
             (Sample.resumed [entry_of Sample.hello "2024-01-01T00:00:00"])).
    intros t Ht. apply list_elem_of_singleton in Ht. subst t.
    vm_compute. apply list_elem_of_here.
  - apply (proj2 rerun_on_ledgered_candidates_is_idle
             Sample.obliging [Sample.hello; Sample.crypto] false (Sample.fresh "DELETE")).
    + right. vm_compute. reflexivity.
    + intros a i x Hin. vm_compute in Hin.
      repeat (apply elem_of_cons in Hin as [Hin|Hin]; [by inversion Hin|]).
      by apply elem_of_nil in Hin.
    + reflexivity.
Defined.

(** ** C3: the confirmation gate *)

(** C3, as amended.  Without [--yes] and without [--dry-run], an API call
    is made only if the line the user typed, once [strip()] has removed the
    whitespace around it, is exactly [DELETE]; for every other line the run
    stops at the gate: no API call, no access to the ledger file (existence
    test, read or write), and the world is as it was. *)
Theorem gate_needs_stripped_literal (c : client) (tweets : list tweet) (w : world) :
  let r := delete_tweets c tweets false false w in
  (deletions (trace r) <> [] -> PyStr.strip (stdin w) = CONFIRMATION)
  /\ (PyStr.strip (stdin w) <> CONFIRMATION ->
      deletions (trace r) = [] /\ ledger_accesses (trace r) = [] /\ final r = w).
Proof.
  intros r.
  assert (Hstop : PyStr.strip (stdin w) <> CONFIRMATION ->
                  deletions (trace r) = [] /\ ledger_accesses (trace r) = []
                  /\ final r = w).
  { intros Hne. subst r. destruct tweets as [|t ts]; [done|].
    by rewrite run_not_confirmed. }
  split; [|exact Hstop].
  intros Hcalls.
  destruct (decide (PyStr.strip (stdin w) = CONFIRMATION)) as [|Hne]; [done|].
  by destruct (Hstop Hne) as (Hd & _).
Qed.

Lemma gate_needs_stripped_literal_witness :
  deletions (trace (delete_tweets Sample.obliging [Sample.hello] false false
                      (Sample.fresh "delete"))) = []
  /\ ledger_accesses (trace (delete_tweets Sample.obliging [Sample.hello] false false
                               (Sample.fresh "delete"))) = []
  /\ final (delete_tweets Sample.obliging [Sample.hello] false false
              (Sample.fresh "delete")) = Sample.fresh "delete".
Proof.
  apply (proj2 (gate_needs_stripped_literal Sample.obliging [Sample.hello]
                  (Sample.fresh "delete"))).
  vm_compute. discriminate.
Defined.

(** C3, as stated, fails: the line typed is [DELETE] between two spaces,
    which is not the literal [DELETE], and the run it confirms deletes. *)
Lemma gate_passes_padded_literal :
  stdin (Sample.fresh " DELETE ") <> CONFIRMATION
  /\ deletions (trace (delete_tweets Sample.obliging [Sample.hello] false false
                         (Sample.fresh " DELETE "))) = ["1"].
Proof. split; [discriminate|vm_compute; reflexivity]. Qed.

(** ** C8: ids in the ledger *)




(** ** Cutting a trace at an event *)

Lemma app_split_cases {A} (l1 l2 e1 e2 : list A) (x : A) :
  l1 ++ l2 = e1 ++ x :: e2 ->
  (exists k, l1 = e1 ++ x :: k /\ e2 = k ++ l2)
  \/ (exists k, e1 = l1 ++ k /\ l2 = k ++ x :: e2).
Proof.
  intros H. apply List.app_eq_app in H as (l & [[H1 H2]|[H1 H2]]).
  - destruct l as [|y l].
    + right. exists []. simpl in H2. rewrite app_nil_r in H1. subst.
      by rewrite app_nil_r.
    + left. exists l. simpl in H2. injection H2 as -> ->. done.
  - right. by exists l.
Qed.

(** Locate an event in a trace that is written out. *)
Ltac split_concrete :=
  repeat match goal with
    | H : [] = ?k ++ _ :: _ |- _ => destruct k; discriminate H
    | H : _ :: _ = ?k ++ _ :: _ |- _ =>
        destruct k as [|? k]; simpl in H;
        [ injection H as ? ?; simplify_eq | injection H as ? H; simplify_eq ]
    end.

Lemma no_call_no_split e1 a i x e2 evs :
  deletions evs = [] -> evs <> e1 ++ DeleteTweet a i x :: e2.
Proof.
  intros Hd ->. rewrite deletions_app in Hd. simpl in Hd.
  by apply app_nil in Hd as [_ Hd].
Qed.

Lemma no_sleep_no_split e1 s e2 evs :
  sleeps evs = [] -> evs <> e1 ++ Sleep s :: e2.
Proof.
  intros Hd ->. rewrite sleeps_app in Hd. simpl in Hd.
  by apply app_nil in Hd as [_ Hd].
Qed.

(** ** C4: exhaustion on the first attempt *)

Lemma exhaustion_attempt c total seen i t st w evs :
  no_exhaustion_yet seen st w evs ->
  let a := attempt_delete c total i t st w in
  match (value a).1 with
  | Next => no_exhaustion_yet (seen ++ [t]) (value a).2 (final a) (evs ++ trace a)
  | Break => stopped_at_exhaustion (seen ++ [t]) (value a).2 (final a) (evs ++ trace a)
  end.
Proof.
  unfold no_exhaustion_yet, stopped_at_exhaustion. intros [Hfa Hno].
  attempt_cases c t w.
  all: try (split; [rewrite first_attempts_app, fmap_app, Hfa; reflexivity|]).
  all: intros e1 j x e2 Hsplit.
  all: try intros Hx.
  all: apply app_split_cases in Hsplit as [(k & -> & ->)|(k & -> & Hk)];
    [ try (rewrite (Hno _ _ _ _ eq_refl) in Hx; discriminate Hx);
      try (by apply (Hno _ _ _ _ eq_refl)) | ].
  all: simpl in Hk; split_concrete; try done.
  all: exists seen, t; rewrite app_nil_r; done.
Qed.

Lemma exhaustion_pause seen st w evs :
  no_exhaustion_yet seen st w evs ->
  let p := proactive_pause st w in
  no_exhaustion_yet seen (value p) (final p) (evs ++ trace p).
Proof.
  unfold no_exhaustion_yet. intros [Hfa Hno]. cbv zeta.
  rewrite proactive_pause_run.
  destruct (_ <=? _)%nat; cbn [value final trace fst snd].
  - split; [by rewrite first_attempts_app, Hfa, app_nil_r|].
    intros e1 j x e2 Hsplit.
    apply app_split_cases in Hsplit as [(k & -> & ->)|(k & -> & Hk)];
      [by apply (Hno _ _ _ _ eq_refl)|].
    split_concrete.
  - by rewrite app_nil_r.
Qed.

Lemma tracks_successes_break c total log0 seen i t st w evs :
  tracks_successes log0 seen st w evs ->
  let a := attempt_delete c total i t st w in
  (value a).1 = Break ->
  tracks_successes log0 seen (value a).2 (final a) (evs ++ trace a).
Proof.
  intros HI. cbv zeta.
  attempt_cases c t w; try discriminate; intros _;
    by apply (tracks_successes_quiet _ _ _ _ _ HI).
Qed.

Lemma abort_attempt c total log0 seen i t st w evs :
  abort_head log0 seen st w evs ->
  let a := attempt_delete c total i t st w in
  match (value a).1 with
  | Next => abort_head log0 (seen ++ [t]) (value a).2 (final a) (evs ++ trace a)
  | Break => abort_stop log0 (seen ++ [t]) (value a).2 (final a) (evs ++ trace a)
  end.
Proof.
  intros [Hno Htr]. cbv zeta.
  pose proof (exhaustion_attempt c total seen i t st w evs Hno) as H1.
  pose proof (tracks_successes_attempt c total log0 seen i t st w evs Htr) as H2.
  pose proof (tracks_successes_break c total log0 seen i t st w evs Htr) as H3.
  cbv zeta in H1, H2, H3.
  destruct (value (attempt_delete c total i t st w)).1.
  - by split.
  - split; [done|]. exists seen, t. split; [done|]. by apply H3.
Qed.

Lemma abort_pause log0 seen st w evs :
  abort_head log0 seen st w evs ->
  let p := proactive_pause st w in
  abort_head log0 seen (value p) (final p) (evs ++ trace p).
Proof.
  intros [Hno Htr]. split.
  - by apply exhaustion_pause.
  - by apply tracks_successes_pause.
Qed.

(** C4.  Take any run and any first attempt in its trace (the call of the
    [try] statement, not the retry) that raised what the outer handlers
    take for quota or billing exhaustion, a [Forbidden] or any other
    exception whose message passes their substring tests.  Then the call was
    made for a candidate [tk] of the remaining list, every earlier first
    attempt was for a candidate before [tk], and all that follows in the
    trace is the notice, the ledger written twice (by the handler and after
    the loop) and the summary: no further API call, so no retry of [tk] and
    nothing for the candidates after it.  The ledger file ends as the loaded
    ledger followed by one entry for each earlier call that returned, each
    a copy of a candidate before [tk]. *)
Theorem exhaustion_on_first_attempt_aborts
    (c : client) (tweets : list tweet) (dry_run skip_confirm : bool) (w : world)
    (e1 : list event) (i : string) (x : api_result) (e2 : list event) :
  let r := delete_tweets c tweets dry_run skip_confirm w in
  trace r = e1 ++ DeleteTweet First i x :: e2 ->
  exhaustion_signal x = true ->
  exists pre tk post new d f,
    remaining_of (ledger w) tweets = pre ++ tk :: post
    /\ id tk = i
    /\ first_attempts e1 = id <$> pre
    /\ e2 = [Print MsgNoCredits; Print MsgRerun;
             LogWrite (ledger w ++ new); LogWrite (ledger w ++ new);
             Print MsgRule; Print (MsgDone d f); Print MsgLogSaved; Print MsgRule]
    /\ deletions e2 = []
    /\ ledger_ids new = succeeded e1
    /\ Forall (fun e => exists t ts, t ∈ pre /\ e = entry_of t ts) new
    /\ log_file (final r) = Some (ledger w ++ new).
Proof.
  intros r Htrace Hx. subst r.
  destruct (run_cases c tweets dry_run skip_confirm w)
    as [(_ & Hd & _)|(_ & Hc & Hrem & Hrun)].
  { by apply no_call_no_split with (e1 := e1) (a := First) (i := i) (x := x) (e2 := e2) in Hd. }
  rewrite Hrun in Htrace |- *. rewrite trace_triple in Htrace. rewrite final_triple.
  set (E0 := prologue tweets skip_confirm w
             ++ [Print (MsgDeleting (length (remaining_of (ledger w) tweets)))]) in *.
  pose proof (delete_loop_rule c (length (remaining_of (ledger w) tweets))
    (abort_head (ledger w)) (abort_head (ledger w)) (abort_stop (ledger w))
    (abort_attempt c _ (ledger w)) (abort_pause (ledger w))
    (remaining_of (ledger w) tweets) [] 1 (initial_locals (ledger w)) w E0) as Hrule.
  cbv zeta in Hrule. fold (main_loop c tweets w) in Hrule.
  assert (HE0 : deletions E0 = [] /\ succeeded E0 = [] /\ first_attempts E0 = []).
  { subst E0. rewrite deletions_app, succeeded_app, first_attempts_app.
    by destruct (prologue_quiet tweets skip_confirm w) as (-> & -> & -> & _). }
  destruct HE0 as (Hd0 & Hs0 & Hf0).
  assert (H0 : abort_head (ledger w) [] (initial_locals (ledger w)) w E0).
  { split.
    - split; [done|]. intros e1' i' x' e2' HE.
      by apply no_call_no_split with (e1 := e1') (a := First) (i := i') (x := x') (e2 := e2') in Hd0.
    - exists []. rewrite app_nil_r, Hs0. done. }
  specialize (Hrule H0). clear H0.
  rewrite app_assoc in Htrace.
  apply app_split_cases in Htrace as [(k & Hk & ->)|(k & -> & Hk)];
    [|unfold epilogue in Hk; split_concrete].
  destruct (value (main_loop c tweets w)) as [[|] st'] eqn:Hv; cbn [fst snd] in *.
  - destruct Hrule as [[_ Hno] _]. rewrite (Hno _ _ _ _ Hk) in Hx. discriminate Hx.
  - destruct Hrule as (handled & t & rest & Hsplit & Hstop & pre & tk & Hpre & Htr).
    destruct (Hstop _ _ _ _ Hk Hx) as (pre' & tk' & Hpre' & Hid & Hfa & ->).
    simpl in Hpre, Hpre'. rewrite Hpre in Hpre'.
    apply app_inj_tail in Hpre' as [<- <-].
    apply app_inj_tail in Hpre as [<- <-].
    destruct Htr as (new & Hlog & Hids & Hall & _).
    exists handled, t, rest, new, (deleted st'), (failed st').
    unfold epilogue. cbn [wrote log_file]. rewrite Hlog. repeat split; try done.
    rewrite Hids, Hk, succeeded_app. simpl.
    destruct x; try discriminate Hx; by rewrite app_nil_r.
Qed.

Lemma exhaustion_on_first_attempt_aborts_witness :
  exists pre tk post new d f,
    remaining_of (ledger (Sample.fresh "DELETE")) [Sample.hello; Sample.crypto]
    = pre ++ tk :: post
    /\ id tk = "2"
    /\ first_attempts [Print MsgRule; Print (MsgWarning 2); Print MsgRule;
                       Input "DELETE"; LogExists false; Print (MsgDeleting 2);
                       DeleteTweet First "1" Deleted;
                       Print (MsgDeleted 1 2 "hello")] = id <$> pre
    /\ [Print MsgNoCredits; Print MsgRerun;
        LogWrite [entry_of Sample.hello "2024-01-01T00:00:00"];
        LogWrite [entry_of Sample.hello "2024-01-01T00:00:00"];
        Print MsgRule; Print (MsgDone 1 0); Print MsgLogSaved; Print MsgRule]
       = [Print MsgNoCredits; Print MsgRerun;
          LogWrite (ledger (Sample.fresh "DELETE") ++ new);
          LogWrite (ledger (Sample.fresh "DELETE") ++ new);
          Print MsgRule; Print (MsgDone d f); Print MsgLogSaved; Print MsgRule]
    /\ deletions [Print MsgNoCredits; Print MsgRerun;
                  LogWrite [entry_of Sample.hello "2024-01-01T00:00:00"];
                  LogWrite [entry_of Sample.hello "2024-01-01T00:00:00"];
                  Print MsgRule; Print (MsgDone 1 0); Print MsgLogSaved;
                  Print MsgRule] = []
    /\ ledger_ids new
       = succeeded [Print MsgRule; Print (MsgWarning 2); Print MsgRule;
                    Input "DELETE"; LogExists false; Print (MsgDeleting 2);
                    DeleteTweet First "1" Deleted;
                    Print (MsgDeleted 1 2 "hello")]
    /\ Forall (fun e => exists t ts, t ∈ pre /\ e = entry_of t ts) new
    /\ log_file (final (delete_tweets Sample.out_of_credit
                          [Sample.hello; Sample.crypto] false false
                          (Sample.fresh "DELETE")))
       = Some (ledger (Sample.fresh "DELETE") ++ new).
Proof.
  apply (exhaustion_on_first_attempt_aborts Sample.out_of_credit
           [Sample.hello; Sample.crypto] false false (Sample.fresh "DELETE")
           _ "2" (OtherError "402 Payment Required") _).
  - vm_compute. reflexivity.
  - vm_compute. reflexivity.
Defined.

(** ** C6: a candidate that is already gone *)

Lemma gone_app e1 e2 : gone (e1 ++ e2) = gone e1 ++ gone e2.
Proof. apply omap_app. Qed.

Lemma counts_gone_attempt c total seen i t st w evs :
  counts_gone seen st w evs ->
  let a := attempt_delete c total i t st w in
  counts_gone (seen ++ [t]) (value a).2 (final a) (evs ++ trace a).
Proof.
  unfold counts_gone. intros HI. cbv zeta.
  attempt_cases c t w; rewrite succeeded_app, gone_app, !length_app; simpl; lia.
Qed.

Lemma counts_gone_pause seen st w evs :
  counts_gone seen st w evs ->
  let p := proactive_pause st w in
  counts_gone seen (value p) (final p) (evs ++ trace p).
Proof.
  unfold counts_gone. intros HI. cbv zeta. rewrite proactive_pause_run.
  destruct (_ <=? _)%nat; cbn [value final trace fst snd];
    rewrite succeeded_app, gone_app, !length_app; simpl; lia.
Qed.

(** [NotFound] raised by the call of the [try] statement.  (a) One
    iteration of the loop whose call (the call of the [try] statement)
    raises [NotFound]: the loop goes on, [deleted] is one more,
    [failed] and [log] are unchanged, and the iteration made that one API
    call only.  (b) Over a whole confirmed run that enters the loop: the
    count of deleted tweets the summary reports is the number of calls that
    returned plus the number of first attempts that raised [NotFound],
    while the ledger written last gains entries for the calls that returned
    only. *)
Theorem first_attempt_not_found_counts_as_deleted :
  (forall (c : client) (total i : nat) (t : tweet) (st : locals) (w : world) (m : string),
      delete_tweet c (api_calls w) (id t) = NotFound m ->
      let r := loop_body c total i t st w in
      (value r).1 = Next
      /\ deleted (value r).2 = S (deleted st)
      /\ failed (value r).2 = failed st
      /\ log (value r).2 = log st
      /\ deletions (trace r) = [id t]
      /\ succeeded (trace r) = [])
  /\ (forall (c : client) (tweets : list tweet) (skip_confirm : bool) (w : world),
         confirmed skip_confirm w ->
         remaining_of (ledger w) tweets <> [] ->
         let r := delete_tweets c tweets false skip_confirm w in
         exists e l d f,
           trace r = e ++ [LogWrite l; Print MsgRule; Print (MsgDone d f);
                           Print MsgLogSaved; Print MsgRule]
           /\ d = length (succeeded (trace r)) + length (gone (trace r))
           /\ ledger_ids l = ledger_ids (ledger w) ++ succeeded (trace r)
           /\ log_file (final r) = Some l).
Proof.
  split.
  - intros c total i t st w m Hnf r. subst r.
    rewrite loop_body_run, attempt_delete_run. cbv zeta. rewrite Hnf.
    cbn [value final trace fst snd]. rewrite proactive_pause_run.
    destruct (_ <=? _)%nat; cbn [value final trace fst snd]; done.
  - intros c tweets skip_confirm w Hc Hrem r.
    destruct (run_ledger c tweets skip_confirm w Hc Hrem) as (new & Hfile & Hids & _).
    fold r in Hfile, Hids. subst r.
    rewrite run_loop in * by done. rewrite trace_triple, final_triple in *.
    set (E0 := prologue tweets skip_confirm w
               ++ [Print (MsgDeleting (length (remaining_of (ledger w) tweets)))]) in *.
    destruct (delete_loop_invariant c (length (remaining_of (ledger w) tweets))
                counts_gone (counts_gone_attempt c _) counts_gone_pause
                (remaining_of (ledger w) tweets) [] 1 (initial_locals (ledger w)) w E0)
      as (handled & rest & Hsplit & Hcount & _).
    { unfold counts_gone. subst E0. rewrite succeeded_app.
      destruct (prologue_quiet tweets skip_confirm w) as (_ & -> & _).
      unfold prologue, banner, gate_events, loading_events, skipping_events.
      destruct skip_confirm, (log_file w), (0 <? _)%nat; reflexivity. }
    fold (main_loop c tweets w) in Hcount. unfold counts_gone in Hcount.
    exists (E0 ++ trace (main_loop c tweets w)),
           (log (value (main_loop c tweets w)).2),
           (deleted (value (main_loop c tweets w)).2),
           (failed (value (main_loop c tweets w)).2).
    split; [by rewrite app_assoc|].
    split.
    { rewrite app_assoc, succeeded_app, gone_app. simpl.
      by rewrite !app_nil_r. }
    split; [|done].
    cbn [wrote log_file] in Hfile. injection Hfile as Hfile. rewrite Hfile.
    unfold ledger_ids at 1. rewrite fmap_app. by rewrite <- Hids.
Qed.

Lemma first_attempt_not_found_counts_as_deleted_witness :
  ((value (loop_body Sample.emptied 1 1 Sample.hello (initial_locals [])
             Sample.unattended)).1 = Next
   /\ deleted (value (loop_body Sample.emptied 1 1 Sample.hello (initial_locals [])
                        Sample.unattended)).2 = 1
   /\ failed (value (loop_body Sample.emptied 1 1 Sample.hello (initial_locals [])
                       Sample.unattended)).2 = 0
   /\ log (value (loop_body Sample.emptied 1 1 Sample.hello (initial_locals [])
                    Sample.unattended)).2 = []
   /\ deletions (trace (loop_body Sample.emptied 1 1 Sample.hello (initial_locals [])
                          Sample.unattended)) = ["1"]
   /\ succeeded (trace (loop_body Sample.emptied 1 1 Sample.hello (initial_locals [])
                          Sample.unattended)) = [])
  /\ (exists e l d f,
         trace (delete_tweets Sample.emptied [Sample.hello] false true Sample.unattended)
         = e ++ [LogWrite l; Print MsgRule; Print (MsgDone d f);
                 Print MsgLogSaved; Print MsgRule]
         /\ d = length (succeeded (trace (delete_tweets Sample.emptied [Sample.hello]
                                            false true Sample.unattended)))
                + length (gone (trace (delete_tweets Sample.emptied [Sample.hello]
                                         false true Sample.unattended)))
         /\ ledger_ids l
            = ledger_ids (ledger Sample.unattended)
              ++ succeeded (trace (delete_tweets Sample.emptied [Sample.hello]
                                     false true Sample.unattended))
         /\ log_file (final (delete_tweets Sample.emptied [Sample.hello] false true
                               Sample.unattended)) = Some l).
Proof.
  split.
  - apply (proj1 first_attempt_not_found_counts_as_deleted Sample.emptied 1 1 Sample.hello
             (initial_locals []) Sample.unattended "404 Not Found").
    reflexivity.
  - apply (proj2 first_attempt_not_found_counts_as_deleted Sample.emptied [Sample.hello] true
             Sample.unattended).
    + left. reflexivity.
    + vm_compute. discriminate.
Defined.

(** ** C6: [NotFound] raised by the retry *)

(** The retry made after a rate limit is a deletion call for the same
    tweet, but its handlers do not have the [NotFound] case of the outer
    ones: a retry that raises [NotFound] is counted as a failure, [deleted]
    is unchanged, and the loop goes on. *)
Lemma not_found_on_retry_attempt c total i t st w m1 m2 :
  delete_tweet c (api_calls w) (id t) = TooManyRequests m1 ->
  delete_tweet c (S (api_calls w)) (id t) = NotFound m2 ->
  let a := attempt_delete c total i t st w in
  (value a).1 = Next
  /\ deleted (value a).2 = deleted st
  /\ failed (value a).2 = S (failed st)
  /\ log (value a).2 = log st
  /\ trace a = [DeleteTweet First (id t) (TooManyRequests m1); Print MsgRateLimited;
                LogWrite (log st); Sleep (RATE_LIMIT_WINDOW + 5);
                DeleteTweet Retry (id t) (NotFound m2);
                Print (MsgFailedAfterRetry i total m2)].
Proof.
  intros Hfirst Hretry. cbv zeta. rewrite attempt_delete_run. cbv zeta.
  rewrite Hfirst. cbn [called api_calls]. rewrite Hretry. done.
Qed.

(** C6 (the tweet that is gone when the retry is made).  The API
    rate-limits the first call and answers every later call with
    [NotFound]: for the first candidate the deletion call that raises
    [NotFound] is the retry, and the candidate is counted as failed
    ("FAILED (after retry)"); for the second candidate it is the call of
    the [try] statement, and the candidate is counted as deleted.  The
    summary reports one deleted and one failed, where the claim has two
    deleted and none failed. *)
Theorem retry_not_found_counts_as_failed :
  trace (delete_tweets Sample.gone_on_retry [Sample.hello; Sample.crypto]
           false true Sample.unattended)
  = [Print MsgRule; Print (MsgWarning 2); Print MsgRule;
     Print MsgSkippingConfirmation; LogExists false; Print (MsgDeleting 2);
     DeleteTweet First "1" (TooManyRequests "429 Too Many Requests");
     Print MsgRateLimited; LogWrite []; Sleep (RATE_LIMIT_WINDOW + 5);
     DeleteTweet Retry "1" (NotFound "404 Not Found");
     Print (MsgFailedAfterRetry 1 2 "404 Not Found");
     DeleteTweet First "2" (NotFound "404 Not Found"); Print (MsgNotFound 2 2 "2");
     LogWrite [];
     Print MsgRule; Print (MsgDone 1 1); Print MsgLogSaved; Print MsgRule].
Proof. vm_compute. reflexivity. Qed.

(** ** C5: the retry after a rate limit *)

(** What the [TooManyRequests] handler does: it writes the ledger, sleeps
    for the window and five seconds, and calls once more for the same id;
    nothing it does after that second call is an API call.  A retry that
    raises [Forbidden] with a message passing [exhausted_retry] ends the
    loop with the ledger written. *)
Lemma rate_limited_attempt c total i t st w m :
  delete_tweet c (api_calls w) (id t) = TooManyRequests m ->
  let a := attempt_delete c total i t st w in
  let x := delete_tweet c (S (api_calls w)) (id t) in
  exists rest,
    trace a = [DeleteTweet First (id t) (TooManyRequests m); Print MsgRateLimited;
               LogWrite (log st); Sleep (RATE_LIMIT_WINDOW + 5);
               DeleteTweet Retry (id t) x] ++ rest
    /\ deletions rest = [] /\ sleeps rest = []
    /\ (forall e, x = Forbidden e -> exhausted_retry e = true ->
                  (value a).1 = Break /\ log_file (final a) = Some (log st)).
Proof.
  intros Hfirst a x. subst a x. rewrite attempt_delete_run. cbv zeta.
  rewrite Hfirst. cbn [called api_calls].
  destruct (delete_tweet c (S (api_calls w)) (id t)) as [|m2|m2|m2|m2] eqn:Hretry;
    [ | | | destruct (exhausted_retry m2) eqn:Hexh | ];
    cbn [value final trace fst snd]; eexists; (split; [reflexivity|]);
    repeat split; try done.
  all: congruence.
Qed.

(** C5 (the retry that fails with a payment error).  The API rate-limits
    the first call, answers the retry with HTTP 402, which is not a
    [Forbidden], and works afterwards: the retry is counted as a plain
    failure and the run goes on to call for the next candidate, although the
    outer handlers take the same exception for exhaustion. *)
Theorem retry_ignores_payment_required :
  exhaustion_signal (OtherError "402 Payment Required") = true
  /\ trace (delete_tweets Sample.broke_on_retry [Sample.hello; Sample.crypto]
              false true Sample.unattended)
     = [Print MsgRule; Print (MsgWarning 2); Print MsgRule;
        Print MsgSkippingConfirmation; LogExists false; Print (MsgDeleting 2);
        DeleteTweet First "1" (TooManyRequests "429 Too Many Requests");
        Print MsgRateLimited; LogWrite []; Sleep (RATE_LIMIT_WINDOW + 5);
        DeleteTweet Retry "1" (OtherError "402 Payment Required");
        Print (MsgFailedAfterRetry 1 2 "402 Payment Required");
        DeleteTweet First "2" Deleted; Print (MsgDeleted 2 2 "buy crypto");
        LogWrite [entry_of Sample.crypto "2024-01-01T00:00:00"];
        Print MsgRule; Print (MsgDone 1 1); Print MsgLogSaved; Print MsgRule].
Proof. split; vm_compute; reflexivity. Qed.

(** ** C7: when the ledger is read and written *)

Lemma loads_app e1 e2 : loads (e1 ++ e2) = loads e1 ++ loads e2.
Proof. apply List.filter_app. Qed.

Lemma loads_attempt c total l seen i t st w evs :
  loads_are l seen st w evs ->
  let a := attempt_delete c total i t st w in
  loads_are l (seen ++ [t]) (value a).2 (final a) (evs ++ trace a).
Proof.
  unfold loads_are. intros <-. cbv zeta. rewrite loads_app.
  attempt_cases c t w; apply app_nil_r.
Qed.

Lemma loads_pause l seen st w evs :
  loads_are l seen st w evs ->
  let p := proactive_pause st w in
  loads_are l seen (value p) (final p) (evs ++ trace p).
Proof.
  unfold loads_are. intros <-. cbv zeta. rewrite proactive_pause_run, loads_app.
  destruct (_ <=? _)%nat; apply app_nil_r.
Qed.

Lemma prologue_loads tweets skip_confirm w :
  loads (prologue tweets skip_confirm w) = loading_events w.
Proof.
  unfold prologue, banner, gate_events, loading_events, skipping_events.
  destruct skip_confirm, (log_file w), (0 <? _)%nat; reflexivity.
Qed.

Lemma checkpointed_attempt c total log0 seen i t st w evs :
  checkpointed log0 seen st w evs ->
  let a := attempt_delete c total i t st w in
  checkpointed log0 (seen ++ [t]) (value a).2 (final a) (evs ++ trace a).
Proof.
  intros [Htr Hcp]. split; [by apply tracks_successes_attempt|].
  destruct Htr as (new & Hlog & Hids & _).
  attempt_cases c t w.
  all: intros e1 s e2 Hsplit.
  all: apply app_split_cases in Hsplit as [(k & -> & ->)|(k & -> & Hk)];
    [by apply (Hcp _ _ _ eq_refl)|].
  all: simpl in Hk; split_concrete.
  all: split; [reflexivity|].
  all: exists (evs ++ [DeleteTweet First (id t) (TooManyRequests msg); Print MsgRateLimited]), new.
  all: rewrite Hlog, <- !app_assoc, succeeded_app, Hids; simpl.
  all: by rewrite app_nil_r.
Qed.

Lemma checkpointed_pause log0 seen st w evs :
  checkpointed log0 seen st w evs ->
  let p := proactive_pause st w in
  checkpointed log0 seen (value p) (final p) (evs ++ trace p).
Proof.
  intros [Htr Hcp]. split; [by apply tracks_successes_pause|].
  destruct Htr as (new & Hlog & Hids & _).
  rewrite proactive_pause_run.
  destruct (_ <=? _)%nat; cbn [value final trace fst snd].
  - intros e1 s e2 Hsplit.
    apply app_split_cases in Hsplit as [(k & -> & ->)|(k & -> & Hk)];
      [by apply (Hcp _ _ _ eq_refl)|].
    split_concrete. split; [reflexivity|].
    exists (evs ++ [Print MsgApproaching]), new.
    rewrite Hlog, <- !app_assoc, succeeded_app, Hids; simpl.
    by rewrite app_nil_r.
  - by rewrite app_nil_r.
Qed.

(** C7, as amended.  In every run (a) when an API call is made the ledger
    has been loaded (the existence test, and the read when the file exists)
    and it is not loaded again; (b) every sleep, after a rate-limit error or
    proactive, lasts the window and five seconds and comes right after a
    write of the loaded ledger followed by one entry for each call that
    returned so far; (c) a run that made an API call ends, aborted or not,
    with the ledger file holding the loaded ledger followed by one entry
    for each call that returned.  A call that returns is not followed by a
    write of its own: its entry reaches the file at the next sleep, abort
    or end of the loop. *)
Theorem ledger_loaded_first_and_written_at_checkpoints
    (c : client) (tweets : list tweet) (dry_run skip_confirm : bool) (w : world) :
  let r := delete_tweets c tweets dry_run skip_confirm w in
  (forall e1 a i x e2,
      trace r = e1 ++ DeleteTweet a i x :: e2 ->
      loads e1 = loading_events w /\ loads e2 = [])
  /\ (forall e1 s e2,
         trace r = e1 ++ Sleep s :: e2 ->
         s = (RATE_LIMIT_WINDOW + 5)%Z
         /\ exists e0 new,
              e1 = e0 ++ [LogWrite (ledger w ++ new)]
              /\ ledger_ids new = succeeded e1)
  /\ (deletions (trace r) <> [] ->
      exists new,
        log_file (final r) = Some (ledger w ++ new)
        /\ ledger_ids new = succeeded (trace r)).
Proof.
  intros r. subst r.
  destruct (run_cases c tweets dry_run skip_confirm w)
    as [(_ & Hd & Hs & _)|(-> & Hc & Hrem & Hrun)].
  { split; [|split].
    - intros e1 a i x e2 H.
      by apply no_call_no_split with (e1 := e1) (a := a) (i := i) (x := x) (e2 := e2) in Hd.
    - intros e1 s e2 H.
      by apply no_sleep_no_split with (e1 := e1) (s := s) (e2 := e2) in Hs.
    - done. }
  split; [|split].
  - rewrite Hrun, trace_triple.
    set (E0 := prologue tweets skip_confirm w
               ++ [Print (MsgDeleting (length (remaining_of (ledger w) tweets)))]).
    destruct (delete_loop_invariant c (length (remaining_of (ledger w) tweets))
                (loads_are (loading_events w))
                (loads_attempt c _ _) (loads_pause _)
                (remaining_of (ledger w) tweets) [] 1 (initial_locals (ledger w)) w E0)
      as (handled & rest & _ & Hl & _).
    { unfold loads_are. subst E0. rewrite loads_app, prologue_loads. apply app_nil_r. }
    fold (main_loop c tweets w) in Hl. unfold loads_are in Hl.
    assert (HdE0 : deletions E0 = []).
    { subst E0. rewrite deletions_app.
      by destruct (prologue_quiet tweets skip_confirm w) as (-> & _). }
    assert (HlE0 : loads E0 = loading_events w).
    { subst E0. rewrite loads_app, prologue_loads. apply app_nil_r. }
    intros e1 a i x e2 Hsplit.
    assert (Hall : loads (e1 ++ DeleteTweet a i x :: e2) = loading_events w).
    { rewrite <- Hsplit, app_assoc, loads_app, Hl. apply app_nil_r. }
    apply app_split_cases in Hsplit as [(k & Hk & _)|(k & -> & _)].
    { by apply no_call_no_split with (e1 := e1) (a := a) (i := i) (x := x) (e2 := k) in HdE0. }
    rewrite <- app_assoc, !loads_app, HlE0 in Hall. simpl in Hall.
    rewrite <- (app_nil_r (loading_events w)) in Hall at 2.
    apply app_inv_head, app_eq_nil in Hall as [Hk He2].
    rewrite loads_app, HlE0, Hk. split; [apply app_nil_r|exact He2].
  - rewrite Hrun, trace_triple.
    set (E0 := prologue tweets skip_confirm w
               ++ [Print (MsgDeleting (length (remaining_of (ledger w) tweets)))]).
    destruct (delete_loop_invariant c (length (remaining_of (ledger w) tweets))
                (checkpointed (ledger w))
                (checkpointed_attempt c _ _) (checkpointed_pause _)
                (remaining_of (ledger w) tweets) [] 1 (initial_locals (ledger w)) w E0)
      as (handled & rest & _ & [_ Hcp] & _).
    { assert (HE0 : succeeded E0 = [] /\ sleeps E0 = []).
      { subst E0. rewrite succeeded_app, sleeps_app.
        by destruct (prologue_quiet tweets skip_confirm w) as (_ & -> & _ & -> & _). }
      destruct HE0 as [Hs0 Hz0]. split.
      - exists []. rewrite app_nil_r, Hs0. done.
      - intros e1 s e2 H.
        by apply no_sleep_no_split with (e1 := e1) (s := s) (e2 := e2) in Hz0. }
    fold (main_loop c tweets w) in Hcp.
    intros e1 s e2 Hsplit. rewrite app_assoc in Hsplit.
    apply app_split_cases in Hsplit as [(k & Hk & _)|(k & _ & Hk)].
    + by apply (Hcp _ _ _ Hk).
    + unfold epilogue in Hk. split_concrete.
  - intros _.
    destruct (run_ledger c tweets skip_confirm w Hc Hrem) as (new & Hfile & Hids & _).
    by exists new.
Qed.

Lemma ledger_loaded_first_and_written_at_checkpoints_witness :
  (loads [Print MsgRule; Print (MsgWarning 2); Print MsgRule;
          Print MsgSkippingConfirmation; LogExists false; Print (MsgDeleting 2)]
   = loading_events Sample.unattended
   /\ loads [Print MsgRateLimited; LogWrite []; Sleep (RATE_LIMIT_WINDOW + 5);
            DeleteTweet Retry "1" (OtherError "402 Payment Required");
            Print (MsgFailedAfterRetry 1 2 "402 Payment Required");
            DeleteTweet First "2" Deleted; Print (MsgDeleted 2 2 "buy crypto");
            LogWrite [entry_of Sample.crypto "2024-01-01T00:00:00"];
            Print MsgRule; Print (MsgDone 1 1); Print MsgLogSaved; Print MsgRule]
      = [])
  /\ ((RATE_LIMIT_WINDOW + 5)%Z = (RATE_LIMIT_WINDOW + 5)%Z
      /\ exists e0 new,
           [Print MsgRule; Print (MsgWarning 2); Print MsgRule;
            Print MsgSkippingConfirmation; LogExists false; Print (MsgDeleting 2);
            DeleteTweet First "1" (TooManyRequests "429 Too Many Requests");
            Print MsgRateLimited; LogWrite []]
           = e0 ++ [LogWrite (ledger Sample.unattended ++ new)]
           /\ ledger_ids new
              = succeeded
                  [Print MsgRule; Print (MsgWarning 2); Print MsgRule;
                   Print MsgSkippingConfirmation; LogExists false;
                   Print (MsgDeleting 2);
                   DeleteTweet First "1" (TooManyRequests "429 Too Many Requests");
                   Print MsgRateLimited; LogWrite []])
  /\ (exists new,
         log_file (final (delete_tweets Sample.broke_on_retry
                            [Sample.hello; Sample.crypto] false true
                            Sample.unattended))
         = Some (ledger Sample.unattended ++ new)
         /\ ledger_ids new
            = succeeded (trace (delete_tweets Sample.broke_on_retry
                                  [Sample.hello; Sample.crypto] false true
                                  Sample.unattended))).
Proof.
  pose proof (ledger_loaded_first_and_written_at_checkpoints Sample.broke_on_retry
                [Sample.hello; Sample.crypto] false true Sample.unattended)
    as (Ha & Hb & Hc).
  split; [|split].
  - apply (Ha _ First "1" (TooManyRequests "429 Too Many Requests") _).
    vm_compute. reflexivity.
  - apply (Hb _ (RATE_LIMIT_WINDOW + 5)%Z
              [DeleteTweet Retry "1" (OtherError "402 Payment Required");
               Print (MsgFailedAfterRetry 1 2 "402 Payment Required");
               DeleteTweet First "2" Deleted; Print (MsgDeleted 2 2 "buy crypto");
               LogWrite [entry_of Sample.crypto "2024-01-01T00:00:00"];
               Print MsgRule; Print (MsgDone 1 1); Print MsgLogSaved; Print MsgRule]).
    vm_compute. reflexivity.
  - apply Hc. vm_compute. discriminate.
Defined.

(** C7, as stated, fails: between two calls that both return, nothing is
    written to the ledger file. *)
Lemma no_write_between_two_deletions :
  trace (delete_tweets Sample.obliging [Sample.hello; Sample.crypto] false true
           Sample.unattended)
  = [Print MsgRule; Print (MsgWarning 2); Print MsgRule;
     Print MsgSkippingConfirmation; LogExists false; Print (MsgDeleting 2)]
    ++ DeleteTweet First "1" Deleted
    :: [Print (MsgDeleted 1 2 "hello")]
    ++ DeleteTweet First "2" Deleted
    :: [Print (MsgDeleted 2 2 "buy crypto");
        LogWrite [entry_of Sample.hello "2024-01-01T00:00:00";
                  entry_of Sample.crypto "2024-01-01T00:00:00"];
        Print MsgRule; Print (MsgDone 2 0); Print MsgLogSaved; Print MsgRule]
  /\ writes [Print (MsgDeleted 1 2 "hello")] = [].
Proof. split; vm_compute; reflexivity. Qed.

(** ** C10: the proactive pause *)
















(** * Further properties of [filter_tweets] *)

Lemma list_filter_sublist {A} (f : A -> bool) (l : list A) :
  List.filter f l `sublist_of` l.
Proof.
  induction l as [|x l IH]; simpl; [constructor|].
  destruct (f x); by constructor.
Qed.

Lemma then_stage_some (m : filtered (list tweet)) f out :
  (then_stage m f).2 = Some out ->
  exists mid, m.2 = Some mid /\ (f mid).2 = Some out.
Proof.
  unfold then_stage. destruct m as [o [mid|]]; simpl; [|discriminate].
  destruct (f mid) as [o' r] eqn:E; simpl. intros ->. exists mid. by rewrite E.
Qed.

Section FilterPipeline.

Variable fromisoformat : string -> option datetime.

Lemma stage_before_filter before_date l out :
  (stage_before fromisoformat before_date l).2 = Some out ->
  out = l
  \/ exists b before_dt,
       PyStr.truthy before_date = Some b /\ fromisoformat b = Some before_dt
       /\ out = List.filter (keep_before fromisoformat before_dt) l.
Proof.
  unfold stage_before. destruct (PyStr.truthy before_date) as [b|]; simpl.
  - destruct (fromisoformat b) as [d|] eqn:E; simpl; [|discriminate].
    intros [= <-]. right. by exists b, d.
  - intros [= <-]. by left.
Qed.

Lemma stage_after_filter after_date l out :
  (stage_after fromisoformat after_date l).2 = Some out ->
  out = l
  \/ exists a after_dt,
       PyStr.truthy after_date = Some a /\ fromisoformat a = Some after_dt
       /\ out = List.filter (keep_after fromisoformat after_dt) l.
Proof.
  unfold stage_after. destruct (PyStr.truthy after_date) as [b|]; simpl.
  - destruct (fromisoformat b) as [d|] eqn:E; simpl; [|discriminate].
    intros [= <-]. right. by exists b, d.
  - intros [= <-]. by left.
Qed.

Lemma stage_contains_filter contains l :
  exists out,
    (stage_contains contains l).2 = Some out
    /\ (out = l
        \/ exists c, PyStr.truthy contains = Some c
                     /\ out = List.filter (keep_contains c) l).
Proof.
  unfold stage_contains. destruct (PyStr.truthy contains) as [c|]; simpl;
    eexists; split; try reflexivity; [right; by exists c|by left].
Qed.

Lemma stage_exclude_filter exclude_contains l :
  exists out,
    (stage_exclude exclude_contains l).2 = Some out
    /\ (out = l
        \/ exists c, PyStr.truthy exclude_contains = Some c
                     /\ out = List.filter (keep_exclude c) l).
Proof.
  unfold stage_exclude. destruct (PyStr.truthy exclude_contains) as [c|]; simpl;
    eexists; split; try reflexivity; [right; by exists c|by left].
Qed.

(** The four stages, one after the other, on a call that returns. *)
Lemma filter_tweets_stages tweets before_date after_date contains exclude_contains out :
  (filter_tweets fromisoformat tweets before_date after_date contains exclude_contains).2
  = Some out ->
  exists l1 l2 l3,
    (stage_before fromisoformat before_date tweets).2 = Some l1
    /\ (stage_after fromisoformat after_date l1).2 = Some l2
    /\ (stage_contains contains l2).2 = Some l3
    /\ (stage_exclude exclude_contains l3).2 = Some out.
Proof.
  unfold filter_tweets. intros H.
  apply then_stage_some in H as (l3 & H & H4).
  apply then_stage_some in H as (l2 & H & H3).
  apply then_stage_some in H as (l1 & H1 & H2).
  by exists l1, l2, l3.
Qed.

(** X1. The result is the input with some tweets left out: nothing is added,
    repeated or reordered. *)
Theorem filter_tweets_keeps_order
    (tweets : list tweet) (before_date after_date contains exclude_contains : option string)
    (out : list tweet) :
  (filter_tweets fromisoformat tweets before_date after_date contains exclude_contains).2
  = Some out ->
  out `sublist_of` tweets.
Proof.
  intros (l1 & l2 & l3 & H1 & H2 & H3 & H4)%filter_tweets_stages.
  assert (S1 : l1 `sublist_of` tweets).
  { apply stage_before_filter in H1 as [->|(? & ? & _ & _ & ->)];
      [done|apply list_filter_sublist]. }
  assert (S2 : l2 `sublist_of` l1).
  { apply stage_after_filter in H2 as [->|(? & ? & _ & _ & ->)];
      [done|apply list_filter_sublist]. }
  assert (S3 : l3 `sublist_of` l2).
  { destruct (stage_contains_filter contains l2) as (o & Ho & Hc).
    rewrite Ho in H3. injection H3 as ->.
    destruct Hc as [->|(? & _ & ->)]; [done|apply list_filter_sublist]. }
  assert (S4 : out `sublist_of` l3).
  { destruct (stage_exclude_filter exclude_contains l3) as (o & Ho & Hc).
    rewrite Ho in H4. injection H4 as ->.
    destruct Hc as [->|(? & _ & ->)]; [done|apply list_filter_sublist]. }
  by repeat (etrans; [eassumption|]).
Qed.

End FilterPipeline.

Section FilterEdges.

Variable fromisoformat : string -> option datetime.

(** X2. With every criterion unset or empty the call prints nothing and
    returns its input. *)
Theorem filter_tweets_without_criteria
    (tweets : list tweet) (before_date after_date contains exclude_contains : option string) :
  PyStr.truthy before_date = None ->
  PyStr.truthy after_date = None ->
  PyStr.truthy contains = None ->
  PyStr.truthy exclude_contains = None ->
  filter_tweets fromisoformat tweets before_date after_date contains exclude_contains
  = ([], Some tweets).
Proof.
  intros Hb Ha Hc He.
  unfold filter_tweets, then_stage, stage_before, stage_after, stage_contains,
    stage_exclude.
  by rewrite Hb, Ha, Hc, He.
Qed.

(** X3. A bound that [fromisoformat] rejects makes the call raise: on
    [--before] before anything is printed, on [--after] once the line of
    the [--before] stage is out; no list is returned in either case. *)
Theorem filter_tweets_rejects_bad_bound
    (tweets : list tweet) (before_date after_date contains exclude_contains : option string)
    (bad : string) :
  fromisoformat bad = None ->
  PyStr.truthy (Some bad) = Some bad ->
  filter_tweets fromisoformat tweets (Some bad) after_date contains exclude_contains
  = ([], None)
  /\ (filter_tweets fromisoformat tweets before_date (Some bad) contains exclude_contains).2
     = None.
Proof.
  intros Hbad Ht. split.
  - unfold filter_tweets, then_stage, stage_before. by rewrite Ht, Hbad.
  - unfold filter_tweets, then_stage, stage_after.
    destruct (stage_before fromisoformat before_date tweets) as [o [l|]]; [|done].
    by rewrite Ht, Hbad.
Qed.

(** X4. The [--before] stage keeps every tweet it cannot date: with only
    [--before] given, a tweet whose [created_at] is missing, empty or
    rejected by [fromisoformat] is in the result. *)
Theorem before_stage_keeps_undated
    (tweets : list tweet) (before_date : option string) (out : list tweet) (t : tweet) :
  (filter_tweets fromisoformat tweets before_date None None None).2 = Some out ->
  undated fromisoformat t ->
  t ∈ tweets ->
  t ∈ out.
Proof.
  intros (l1 & l2 & l3 & H1 & H2 & H3 & H4)%filter_tweets_stages Hu Hin.
  simpl in H2, H3, H4. simplify_eq.
  by apply (stage_before_undated fromisoformat before_date tweets t Hu Hin).
Qed.

(** X5. Both bounds are strict: a tweet dated exactly at a naive bound is
    dropped by [--before] and by [--after]. *)
Theorem date_bounds_are_strict
    (tweets : list tweet) (bound c : string) (bound_dt d : datetime) (t : tweet)
    (out_before out_after : list tweet) :
  PyStr.truthy (Some bound) = Some bound ->
  fromisoformat bound = Some bound_dt ->
  tzinfo bound_dt = None ->
  PyStr.truthy (created_at t) = Some c ->
  tweet_date fromisoformat c = Some d ->
  wall d = wall bound_dt ->
  (filter_tweets fromisoformat tweets (Some bound) None None None).2 = Some out_before ->
  (filter_tweets fromisoformat tweets None (Some bound) None None).2 = Some out_after ->
  (t ∉ out_before) /\ (t ∉ out_after).
Proof.
  intros Ht Hb Hz Hc Hd Hw
    (l1 & l2 & l3 & H1 & H2 & H3 & H4)%filter_tweets_stages
    (k1 & k2 & k3 & K1 & K2 & K3 & K4)%filter_tweets_stages.
  simpl in H2, H3, H4, K1, K3, K4. simplify_eq.
  unfold stage_before in H1. unfold stage_after in K2.
  rewrite Ht, Hb in H1, K2. simpl in H1, K2. simplify_eq.
  assert (Hkb : keep_before fromisoformat bound_dt t = false).
  { unfold keep_before, dt_lt. rewrite Hc, Hd. simpl. rewrite Hz, Hw.
    apply Z.ltb_irrefl. }
  assert (Hka : keep_after fromisoformat bound_dt t = false).
  { unfold keep_after, dt_gt, dt_lt. rewrite Hc, Hd. simpl. rewrite Hz, Hw.
    apply Z.ltb_irrefl. }
  split; intros Hin%list_elem_of_In%List.filter_In; destruct Hin as [_ Hk];
    congruence.
Qed.

End FilterEdges.

Lemma lower_nonempty c s : PyStr.lower (String c s) <> EmptyString.
Proof. simpl. discriminate. Qed.

(** X6. A tweet with empty text never passes [--contains] and always passes
    [--exclude], whatever non-empty text is looked for. *)
Theorem empty_text_fails_contains_passes_exclude
    (fromisoformat : string -> option datetime)
    (tweets : list tweet) (c : string) (t : tweet) (out_contains out_exclude : list tweet) :
  PyStr.truthy (Some c) = Some c ->
  text t = EmptyString ->
  t ∈ tweets ->
  (filter_tweets fromisoformat tweets None None (Some c) None).2 = Some out_contains ->
  (filter_tweets fromisoformat tweets None None None (Some c)).2 = Some out_exclude ->
  (t ∉ out_contains) /\ t ∈ out_exclude.
Proof.
  intros Ht Htext Hin
    (l1 & l2 & l3 & H1 & H2 & H3 & H4)%filter_tweets_stages
    (k1 & k2 & k3 & K1 & K2 & K3 & K4)%filter_tweets_stages.
  simpl in H1, H2, H4, K1, K2, K3. simplify_eq.
  unfold stage_contains in H3. unfold stage_exclude in K4.
  rewrite Ht in H3, K4. simpl in H3, K4. simplify_eq.
  assert (Hk : keep_contains c t = false).
  { unfold keep_contains. rewrite Htext. destruct c as [|a c]; [discriminate Ht|].
    reflexivity. }
  split.
  - intros Hx%list_elem_of_In%List.filter_In. destruct Hx as [_ Hx]. congruence.
  - apply list_elem_of_In, List.filter_In. split; [by apply list_elem_of_In|].
    unfold keep_exclude. unfold keep_contains in Hk. by rewrite Hk.
Qed.

Lemma filter_tweets_keeps_order_witness :
  [Sample.hello] `sublist_of` [Sample.hello; Sample.crypto].
Proof.
  apply (filter_tweets_keeps_order sample_fromisoformat
           [Sample.hello; Sample.crypto] (Some "2023-01-01") None None None).
  vm_compute. reflexivity.
Defined.

Lemma filter_tweets_without_criteria_witness :
  filter_tweets sample_fromisoformat [Sample.hello; Sample.crypto]
    None (Some EmptyString) None (Some EmptyString)
  = ([], Some [Sample.hello; Sample.crypto]).
Proof.
  apply (filter_tweets_without_criteria sample_fromisoformat
           [Sample.hello; Sample.crypto] None (Some EmptyString) None (Some EmptyString));
    reflexivity.
Defined.

Lemma filter_tweets_rejects_bad_bound_witness :
  filter_tweets sample_fromisoformat [Sample.hello] (Some "yesterday") None None None
  = ([], None)
  /\ (filter_tweets sample_fromisoformat [Sample.hello] (Some "2023-01-01")
        (Some "yesterday") None None).2 = None.
Proof.
  apply (filter_tweets_rejects_bad_bound sample_fromisoformat [Sample.hello]
           (Some "2023-01-01") None None None "yesterday"); reflexivity.
Defined.

Lemma before_stage_keeps_undated_witness :
  Sample.hello ∈ [Sample.hello].
Proof.
  apply (before_stage_keeps_undated sample_fromisoformat
           [Sample.hello; Sample.crypto] (Some "2023-01-01") [Sample.hello] Sample.hello).
  - vm_compute. reflexivity.
  - exact I.
  - apply list_elem_of_here.
Defined.

Lemma date_bounds_are_strict_witness :
  (Sample.crypto ∉ [Sample.hello_again]) /\ (Sample.crypto ∉ []).
Proof.
  apply (date_bounds_are_strict sample_fromisoformat
           [Sample.hello_again; Sample.crypto] "2023-06-01" "2023-06-01"
           (Datetime 20230601 None) (Datetime 20230601 None) Sample.crypto);
    vm_compute; reflexivity.
Defined.

Lemma empty_text_fails_contains_passes_exclude_witness :
  (Tweet "3" EmptyString None ∉ [Sample.crypto])
  /\ Tweet "3" EmptyString None ∈ [Sample.hello; Tweet "3" EmptyString None].
Proof.
  apply (empty_text_fails_contains_passes_exclude sample_fromisoformat
           [Sample.hello; Sample.crypto; Tweet "3" EmptyString None] "crypto"
           (Tweet "3" EmptyString None)).
  - reflexivity.
  - reflexivity.
  - apply list_elem_of_further, list_elem_of_further, list_elem_of_here.
  - vm_compute. reflexivity.
  - vm_compute. reflexivity.
Defined.

(** * Further properties of [delete_tweets] *)

(** ** The keyboard *)

Lemma inputs_app e1 e2 : inputs (e1 ++ e2) = inputs e1 ++ inputs e2.
Proof. apply omap_app. Qed.

Lemma no_input_attempt c total seen i t st w evs :
  no_input seen st w evs ->
  let a := attempt_delete c total i t st w in
  no_input (seen ++ [t]) (value a).2 (final a) (evs ++ trace a).
Proof.
  unfold no_input. intros HI. cbv zeta. rewrite inputs_app, HI.
  attempt_cases c t w; reflexivity.
Qed.

Lemma no_input_pause seen st w evs :
  no_input seen st w evs ->
  let p := proactive_pause st w in
  no_input seen (value p) (final p) (evs ++ trace p).
Proof.
  unfold no_input. intros HI. cbv zeta. rewrite proactive_pause_run, inputs_app, HI.
  destruct (_ <=? _)%nat; reflexivity.
Qed.

Lemma main_loop_no_input c tweets w : inputs (trace (main_loop c tweets w)) = [].
Proof.
  destruct (delete_loop_invariant c (length (remaining_of (ledger w) tweets))
              no_input (no_input_attempt c _) no_input_pause
              (remaining_of (ledger w) tweets) [] 1 (initial_locals (ledger w)) w [])
    as (handled & rest & _ & H & _); [reflexivity|].
  exact H.
Qed.

(** X7. The run reads the keyboard at most once: exactly once when there are
    candidates and neither [--dry-run] nor [--yes] is given, and never
    otherwise; with [--yes] or [--dry-run] what would be typed plays no
    part. *)
Theorem prompts_once_or_never
    (c : client) (tweets : list tweet) (dry_run skip_confirm : bool) (w : world) :
  inputs (trace (delete_tweets c tweets dry_run skip_confirm w))
  = match tweets with
    | [] => []
    | _ :: _ => if dry_run || skip_confirm then [] else [stdin w]
    end.
Proof.
  destruct tweets as [|t ts]; [reflexivity|].
  destruct dry_run; simpl orb.
  { pose proof (dry_run_prints c t ts skip_confirm w) as Hp.
    induction Hp as [|e evs He _ IH]; [done|]. by destruct e. }
  destruct (run_cases c (t :: ts) false skip_confirm w)
    as [(_ & _ & _ & _ & [H|[H|[H|H]]])|(_ & Hc & Hrem & ->)]; try done.
  - destruct skip_confirm; [by destruct H; left|].
    rewrite run_not_confirmed by (intros E; apply H; by right). reflexivity.
  - assert (Hc : confirmed skip_confirm w
                 \/ (skip_confirm = false /\ PyStr.strip (stdin w) <> CONFIRMATION)).
    { destruct skip_confirm; [left; by left|].
      destruct (decide (PyStr.strip (stdin w) = CONFIRMATION)); [left; by right|by right]. }
    destruct Hc as [Hc|[-> Hne]].
    + rewrite run_nothing_left by done. rewrite trace_triple, inputs_app.
      unfold prologue, banner, gate_events, loading_events, skipping_events.
      destruct skip_confirm, (log_file w), (0 <? _)%nat; reflexivity.
    + by rewrite run_not_confirmed.
  - rewrite trace_triple, !inputs_app, main_loop_no_input.
    unfold prologue, banner, gate_events, loading_events, skipping_events.
    destruct skip_confirm, (log_file w), (0 <? _)%nat; reflexivity.
Qed.

(** ** The ledger only grows *)

Lemma ascending_nil : ascending [].
Proof. intros k1 l k2 H. by destruct k1. Qed.

Lemma ascending_snoc ls x :
  ascending ls -> Forall (fun l => l `prefix_of` x) ls -> ascending (ls ++ [x]).
Proof.
  intros Ha Hx k1 l k2 H.
  apply app_split_cases in H as [(k & -> & ->)|(k & -> & Hk)].
  - apply Forall_app. split; [by apply (Ha k1 l k)|].
    constructor; [|constructor].
    apply Forall_app in Hx as [_ Hx]. by apply Forall_cons in Hx as [Hx _].
  - destruct k as [|? k]; simpl in Hk.
    + injection Hk as <- <-. constructor.
    + injection Hk as _ Hk. by destruct k.
Qed.

Lemma only_grows_step log0 seen seen' st st' w w' evs tr :
  only_grows log0 seen st w evs ->
  log st `prefix_of` log st' ->
  (writes tr = [] \/ writes tr = [log st] \/ writes tr = [log st; log st]) ->
  only_grows log0 seen' st' w' (evs ++ tr).
Proof.
  intros (H0 & Hall & Hasc) Hpre Hw.
  assert (Hall' : Forall (fun l => log0 `prefix_of` l /\ l `prefix_of` log st') (writes evs)).
  { eapply Forall_impl; [exact Hall|]. intros l [? ?]. split; [done|by etrans]. }
  assert (Hold : Forall (fun l => l `prefix_of` log st) (writes evs)).
  { eapply Forall_impl; [exact Hall|]. by intros l [? ?]. }
  split; [by etrans|]. rewrite writes_app.
  destruct Hw as [->|[->| ->]].
  - by rewrite app_nil_r.
  - split.
    + apply Forall_app. split; [done|]. by repeat constructor.
    + by apply ascending_snoc.
  - split.
    + apply Forall_app. split; [done|]. by repeat constructor.
    + change [log st; log st] with ([log st] ++ [log st]). rewrite app_assoc.
      apply ascending_snoc; [by apply ascending_snoc|].
      apply Forall_app. split; [done|]. by constructor.
Qed.

Lemma only_grows_attempt c total log0 seen i t st w evs :
  only_grows log0 seen st w evs ->
  let a := attempt_delete c total i t st w in
  only_grows log0 (seen ++ [t]) (value a).2 (final a) (evs ++ trace a).
Proof.
  intros HI. cbv zeta. apply (only_grows_step _ _ _ _ _ _ _ _ _ HI).
  all: attempt_cases c t w; simpl.
  all: try (by apply prefix_app_r).
  all: try done.
  all: try (by left).
  all: try (right; by left).
  all: right; by right.
Qed.

Lemma only_grows_pause log0 seen st w evs :
  only_grows log0 seen st w evs ->
  let p := proactive_pause st w in
  only_grows log0 seen (value p) (final p) (evs ++ trace p).
Proof.
  intros HI. cbv zeta. apply (only_grows_step _ _ _ _ _ _ _ _ _ HI).
  all: rewrite proactive_pause_run; destruct (_ <=? _)%nat; simpl; try done.
  all: try (by left).
  all: right; by left.
Qed.

(** X8. Whatever a run writes to the ledger file extends the ledger it loaded,
    and every later write extends the earlier ones: no entry is ever
    dropped, changed or moved. *)
Theorem ledger_writes_only_append
    (c : client) (tweets : list tweet) (dry_run skip_confirm : bool) (w : world)
    (e1 : list event) (l : list log_entry) (e2 : list event) :
  trace (delete_tweets c tweets dry_run skip_confirm w) = e1 ++ LogWrite l :: e2 ->
  ledger w `prefix_of` l
  /\ Forall (fun l' => l `prefix_of` l') (writes e2).
Proof.
  intros Htrace.
  destruct (run_cases c tweets dry_run skip_confirm w)
    as [(_ & _ & _ & Hw & _)|(_ & Hc & Hrem & Hrun)].
  { rewrite Htrace, writes_app in Hw. simpl in Hw.
    by apply app_eq_nil in Hw as [_ Hw]. }
  rewrite Hrun, trace_triple in Htrace.
  set (E0 := prologue tweets skip_confirm w
             ++ [Print (MsgDeleting (length (remaining_of (ledger w) tweets)))]) in *.
  destruct (delete_loop_invariant c (length (remaining_of (ledger w) tweets))
              (only_grows (ledger w)) (only_grows_attempt c _ _) (only_grows_pause _)
              (remaining_of (ledger w) tweets) [] 1 (initial_locals (ledger w)) w E0)
    as (handled & rest & _ & (H0 & Hall & Hasc) & _).
  { assert (HE0 : writes E0 = []).
    { subst E0. rewrite writes_app.
      by destruct (prologue_quiet tweets skip_confirm w) as (_ & _ & _ & _ & ->). }
    split; [done|]. rewrite HE0. split; [constructor|apply ascending_nil]. }
  fold (main_loop c tweets w) in H0, Hall, Hasc.
  set (st := (value (main_loop c tweets w)).2) in *.
  assert (Hfull : writes (e1 ++ LogWrite l :: e2)
                  = writes (E0 ++ trace (main_loop c tweets w)) ++ [log st]).
  { rewrite <- Htrace, app_assoc, writes_app. reflexivity. }
  assert (Hasc' : ascending (writes (e1 ++ LogWrite l :: e2))).
  { rewrite Hfull. apply ascending_snoc; [done|].
    eapply Forall_impl; [exact Hall|]. by intros ? [? ?]. }
  assert (Hall' : Forall (fun l => ledger w `prefix_of` l) (writes (e1 ++ LogWrite l :: e2))).
  { rewrite Hfull. apply Forall_app. split.
    - eapply Forall_impl; [exact Hall|]. by intros ? [? ?].
    - by constructor. }
  rewrite writes_app in Hasc', Hall'. simpl in Hasc', Hall'. split.
  - apply Forall_app in Hall' as [_ Hall']. by apply Forall_cons in Hall' as [? _].
  - by apply (Hasc' (writes e1) l (writes e2)).
Qed.

Lemma ledger_writes_only_append_witness :
  ledger Sample.unattended `prefix_of` []
  /\ Forall (fun l' => [] `prefix_of` l')
       (writes [Sleep (RATE_LIMIT_WINDOW + 5);
                DeleteTweet Retry "1" (OtherError "402 Payment Required");
                Print (MsgFailedAfterRetry 1 2 "402 Payment Required");
                DeleteTweet First "2" Deleted; Print (MsgDeleted 2 2 "buy crypto");
                LogWrite [entry_of Sample.crypto "2024-01-01T00:00:00"];
                Print MsgRule; Print (MsgDone 1 1); Print MsgLogSaved; Print MsgRule]).
Proof.
  apply (ledger_writes_only_append Sample.broke_on_retry [Sample.hello; Sample.crypto]
           false true Sample.unattended
           [Print MsgRule; Print (MsgWarning 2); Print MsgRule;
            Print MsgSkippingConfirmation; LogExists false; Print (MsgDeleting 2);
            DeleteTweet First "1" (TooManyRequests "429 Too Many Requests");
            Print MsgRateLimited]).
  vm_compute. reflexivity.
Defined.

(** ** Candidates are attempted in order *)

Lemma calls_app e1 e2 : calls (e1 ++ e2) = calls e1 ++ calls e2.
Proof. apply omap_app. Qed.

Lemma in_order_snoc seen retried t b evs tr :
  length retried = length seen ->
  calls evs = concat (zip_with calls_for seen retried) ->
  calls tr = calls_for t b ->
  exists retried' : list bool,
    length retried' = length (seen ++ [t])
    /\ calls (evs ++ tr) = concat (zip_with calls_for (seen ++ [t]) retried').
Proof.
  intros Hlen Hcalls Htr. exists (retried ++ [b]). split.
  - rewrite !length_app, Hlen. reflexivity.
  - rewrite calls_app, Hcalls, Htr, zip_with_app by done.
    rewrite concat_app. simpl. by rewrite app_nil_r.
Qed.

Lemma in_order_attempt c total seen i t st w evs :
  in_order seen st w evs ->
  let a := attempt_delete c total i t st w in
  in_order (seen ++ [t]) (value a).2 (final a) (evs ++ trace a).
Proof.
  intros (retried & Hlen & Hcalls). cbv zeta. unfold in_order.
  attempt_cases c t w.
  all: first [ by apply (in_order_snoc seen retried t false)
             | by apply (in_order_snoc seen retried t true) ].
Qed.

Lemma in_order_pause seen st w evs :
  in_order seen st w evs ->
  let p := proactive_pause st w in
  in_order seen (value p) (final p) (evs ++ trace p).
Proof.
  intros (retried & Hlen & Hcalls). cbv zeta. exists retried. split; [done|].
  rewrite proactive_pause_run, calls_app, Hcalls.
  destruct (_ <=? _)%nat; simpl; by rewrite app_nil_r.
Qed.

Lemma no_call_no_calls evs : deletions evs = [] -> calls evs = [].
Proof.
  induction evs as [|e evs IH]; [done|].
  destruct e as [| | | | |a i r|]; simpl; try exact IH. done.
Qed.

(** X9. The candidates are taken in the order given, none is skipped, and each
    gets at most two calls: the API calls of a run are, candidate by
    candidate, those of an initial segment [handled] of the candidates that
    are not in the loaded ledger; for each of them the first attempt and,
    directly after it, at most one retry for the same id. *)
Theorem candidates_attempted_in_order
    (c : client) (tweets : list tweet) (dry_run skip_confirm : bool) (w : world) :
  exists (handled rest : list tweet) (retried : list bool),
    remaining_of (ledger w) tweets = handled ++ rest
    /\ length retried = length handled
    /\ calls (trace (delete_tweets c tweets dry_run skip_confirm w))
       = concat (zip_with calls_for handled retried).
Proof.
  destruct (run_cases c tweets dry_run skip_confirm w)
    as [(_ & Hd & _)|(_ & Hc & Hrem & ->)].
  { exists [], (remaining_of (ledger w) tweets), [].
    by rewrite (no_call_no_calls _ Hd). }
  rewrite trace_triple.
  set (E0 := prologue tweets skip_confirm w
             ++ [Print (MsgDeleting (length (remaining_of (ledger w) tweets)))]).
  destruct (delete_loop_invariant c (length (remaining_of (ledger w) tweets))
              in_order (in_order_attempt c _) in_order_pause
              (remaining_of (ledger w) tweets) [] 1 (initial_locals (ledger w)) w E0)
    as (handled & rest & Hsplit & (retried & Hlen & Hcalls) & _).
  { exists []. split; [done|]. subst E0.
    rewrite (no_call_no_calls (prologue tweets skip_confirm w ++ _)); [done|].
    rewrite deletions_app.
    by destruct (prologue_quiet tweets skip_confirm w) as (-> & _). }
  fold (main_loop c tweets w) in Hcalls.
  change ([] ++ handled) with handled in Hlen, Hcalls.
  exists handled, rest, retried. split; [done|]. split; [done|].
  rewrite app_assoc, calls_app, Hcalls.
  change (calls (epilogue _)) with (@nil (attempt * string)).
  apply app_nil_r.
Qed.

(** ** What the summary counts *)

Lemma abort_notices_app e1 e2 :
  abort_notices (e1 ++ e2) = abort_notices e1 ++ abort_notices e2.
Proof. apply omap_app. Qed.

Lemma summaries_app e1 e2 : summaries (e1 ++ e2) = summaries e1 ++ summaries e2.
Proof. apply omap_app. Qed.

Lemma elem_of_summaries d f evs : Print (MsgDone d f) ∈ evs <-> (d, f) ∈ summaries evs.
Proof.
  unfold summaries. rewrite list_elem_of_omap. split.
  - intros H. by exists (Print (MsgDone d f)).
  - intros (e & He & Hs). destruct e as [[]| | | | | |]; try done.
    by injection Hs as -> ->.
Qed.

Lemma prints_no_abort_notice_attempt c total seen i t st w evs :
  all_counted seen st w evs ->
  let a := attempt_delete c total i t st w in
  match (value a).1 with
  | Next => all_counted (seen ++ [t]) (value a).2 (final a) (evs ++ trace a)
  | Break => one_uncounted (seen ++ [t]) (value a).2 (final a) (evs ++ trace a)
  end.
Proof.
  intros (Ha & Hs & Hf & Hn). cbv zeta. unfold all_counted, one_uncounted.
  rewrite abort_notices_app, summaries_app, first_attempts_app, fmap_app, length_app,
    Ha, Hs, Hf.
  attempt_cases c t w; simpl; (repeat split; try reflexivity; lia).
Qed.

Lemma all_counted_pause seen st w evs :
  all_counted seen st w evs ->
  let p := proactive_pause st w in
  all_counted seen (value p) (final p) (evs ++ trace p).
Proof.
  intros (Ha & Hs & Hf & Hn). cbv zeta. unfold all_counted.
  rewrite proactive_pause_run, abort_notices_app, summaries_app, first_attempts_app.
  destruct (_ <=? _)%nat; simpl; rewrite ?app_nil_r; done.
Qed.

Lemma preview_lines_no_summary l : summaries (preview_lines l) = [].
Proof.
  unfold preview_lines.
  assert (H : forall (g : nat -> tweet -> nat * option string * string),
             summaries (imap (fun k t => Print (MsgPreview (g k t).1.1 (g k t).1.2 (g k t).2)) l)
             = []).
  { induction l as [|x l IH]; intros g; [done|]. simpl. apply (IH (fun k => g (S k))). }
  apply (H (fun k t => (S k, created_at t, text_preview 80 t))).
Qed.

Lemma idle_runs_print_no_summary c tweets dry_run skip_confirm w :
  tweets = [] \/ dry_run = true \/ ~ confirmed skip_confirm w
  \/ remaining_of (ledger w) tweets = [] ->
  summaries (trace (delete_tweets c tweets dry_run skip_confirm w)) = [].
Proof.
  intros H. destruct tweets as [|t ts]; [reflexivity|].
  destruct dry_run.
  { rewrite dry_run_run. cbv zeta. rewrite trace_triple, !summaries_app.
    rewrite preview_lines_no_summary. by destruct (_ <? _)%nat. }
  assert (Hno : forall evs, summaries (prologue (t :: ts) skip_confirm w ++ evs)
                            = summaries evs).
  { intros evs. rewrite summaries_app.
    unfold prologue, banner, gate_events, loading_events, skipping_events.
    destruct skip_confirm, (log_file w), (0 <? _)%nat; reflexivity. }
  destruct (decide (skip_confirm = true \/ PyStr.strip (stdin w) = CONFIRMATION))
    as [Hc|Hc].
  - destruct H as [H|[H|[H|H]]]; try done.
    rewrite run_nothing_left by done. by rewrite trace_triple, Hno.
  - destruct skip_confirm; [destruct Hc; by left|].
    rewrite run_not_confirmed by (intros E; apply Hc; by right). reflexivity.
Qed.

(** X10. The summary line accounts for every candidate the run reached: the
    counts it prints add up to the number of first attempts made, less one
    when the run was aborted (the candidate at which it aborted is counted
    neither as deleted nor as failed); a run prints at most one abort
    notice, and a run that prints none and a summary has attempted every
    candidate that is not in the loaded ledger. *)
Theorem summary_accounts_for_attempts
    (c : client) (tweets : list tweet) (dry_run skip_confirm : bool) (w : world)
    (d f : nat) (evs : list event) :
  evs = trace (delete_tweets c tweets dry_run skip_confirm w) ->
  Print (MsgDone d f) ∈ evs ->
  d + f + length (abort_notices evs) = length (first_attempts evs)
  /\ length (abort_notices evs) <= 1
  /\ (abort_notices evs = [] ->
      first_attempts evs = id <$> remaining_of (ledger w) tweets).
Proof.
  intros -> Hin%elem_of_summaries.
  destruct (run_cases c tweets dry_run skip_confirm w)
    as [(_ & _ & _ & _ & Hidle)|(_ & Hc & Hrem & Hrun)].
  { rewrite idle_runs_print_no_summary in Hin by done. by apply elem_of_nil in Hin. }
  rewrite Hrun, trace_triple in Hin |- *.
  set (E0 := prologue tweets skip_confirm w
             ++ [Print (MsgDeleting (length (remaining_of (ledger w) tweets)))]) in *.
  assert (H0 : all_counted [] (initial_locals (ledger w)) w E0).
  { subst E0. unfold all_counted.
    rewrite abort_notices_app, summaries_app, first_attempts_app.
    unfold prologue, banner, gate_events, loading_events, skipping_events.
    destruct skip_confirm, (log_file w), (0 <? _)%nat; done. }
  pose proof (delete_loop_rule c (length (remaining_of (ledger w) tweets))
                all_counted all_counted one_uncounted
                (prints_no_abort_notice_attempt c _) all_counted_pause
                (remaining_of (ledger w) tweets) [] 1 (initial_locals (ledger w)) w E0 H0)
    as Hloop.
  cbv zeta in Hloop. fold (main_loop c tweets w) in Hloop.
  set (st := (value (main_loop c tweets w)).2) in *.
  set (L := trace (main_loop c tweets w)) in *.
  assert (Hep : forall evs, summaries (evs ++ epilogue st) = summaries evs ++ [(deleted st, failed st)]
                 /\ abort_notices (evs ++ epilogue st) = abort_notices evs
                 /\ first_attempts (evs ++ epilogue st) = first_attempts evs).
  { intros evs. rewrite summaries_app, abort_notices_app, first_attempts_app.
    simpl. by rewrite !app_nil_r. }
  rewrite app_assoc in Hin |- *.
  destruct (Hep (E0 ++ L)) as (Hs & -> & ->). rewrite Hs in Hin. clear Hep Hs.
  destruct ((value (main_loop c tweets w)).1).
  - destruct Hloop as (Ha & Hs & Hf & Hn). rewrite app_nil_l in Hf, Hn.
    rewrite Hs in Hin.
    apply list_elem_of_singleton in Hin. injection Hin as -> ->.
    rewrite Ha, Hf, length_fmap. cbn [length]. split; [|split]; [lia|lia|done].
  - destruct Hloop as (handled & t & rest & Hsplit & Ha & Hs & Hf & Hn).
    rewrite app_nil_l in Hf, Hn. rewrite Hs in Hin. apply list_elem_of_singleton in Hin. injection Hin as -> ->.
    split; [|split].
    + rewrite Ha, Hf, length_fmap. lia.
    + rewrite Ha. lia.
    + intros E. rewrite E in Ha. done.
Qed.

Lemma summary_accounts_for_attempts_witness :
  1 + 0 + length (abort_notices
                    (trace (delete_tweets Sample.out_of_credit
                              [Sample.crypto; Sample.hello] false true Sample.unattended)))
  = length (first_attempts
              (trace (delete_tweets Sample.out_of_credit
                        [Sample.crypto; Sample.hello] false true Sample.unattended)))
  /\ length (abort_notices
               (trace (delete_tweets Sample.out_of_credit
                         [Sample.crypto; Sample.hello] false true Sample.unattended))) <= 1
  /\ (abort_notices
        (trace (delete_tweets Sample.out_of_credit
                  [Sample.crypto; Sample.hello] false true Sample.unattended)) = [] ->
      first_attempts
        (trace (delete_tweets Sample.out_of_credit
                  [Sample.crypto; Sample.hello] false true Sample.unattended))
      = id <$> remaining_of (ledger Sample.unattended) [Sample.crypto; Sample.hello]).
Proof.
  apply (summary_accounts_for_attempts Sample.out_of_credit [Sample.crypto; Sample.hello]
           false true Sample.unattended 1 0 _ eq_refl).
  apply elem_of_summaries. vm_compute. constructor.
Defined.

(** * The archive file *)

Lemma index_none c s : index c s = None <-> PyStr.contains (String c EmptyString) s = false.
Proof.
  induction s as [|d s IH]; simpl; [done|].
  destruct (ascii_dec c d) as [->|Hne].
  - rewrite Ascii.eqb_refl. by destruct s.
  - destruct (Ascii.eqb_spec d c) as [->|_]; [done|].
    simpl. rewrite <- IH. by destruct (index c s).
Qed.

Lemma index_app_first c name rest :
  index c name = None ->
  index c (name +:+ String c rest) = Some (String.length name).
Proof.
  induction name as [|d name IH]; simpl.
  - by rewrite Ascii.eqb_refl.
  - destruct (Ascii.eqb d c); [done|]. intros H.
    destruct (index c name) eqn:E; [done|]. by rewrite IH.
Qed.

Lemma drop_chars_app name rest :
  drop_chars (String.length name) (name +:+ rest) = rest.
Proof. induction name as [|d name IH]; simpl; [by destruct rest|done]. Qed.

Lemma lstrip_blank pad s : blank pad = true -> PyStr.lstrip (pad +:+ s) = PyStr.lstrip s.
Proof.
  induction pad as [|c pad IH]; simpl; [done|].
  intros [Hc Hpad]%andb_prop. rewrite Hc. by apply IH.
Qed.

Lemma rstrip_blank_only pad : blank pad = true -> PyStr.rstrip pad = EmptyString.
Proof.
  induction pad as [|c pad IH]; simpl; [done|].
  intros [Hc Hpad]%andb_prop. by rewrite IH, Hc.
Qed.

Lemma rstrip_blank s pad : blank pad = true -> PyStr.rstrip (s +:+ pad) = PyStr.rstrip s.
Proof.
  intros Hpad. induction s as [|c s IH]; simpl.
  - by apply rstrip_blank_only.
  - by rewrite IH.
Qed.

Lemma length_lstrip s : String.length (PyStr.lstrip s) <= String.length s.
Proof.
  induction s as [|c s IH]; simpl; [done|].
  destruct (PyStr.is_space c); simpl; lia.
Qed.

Lemma length_rstrip s : String.length (PyStr.rstrip s) <= String.length s.
Proof.
  induction s as [|c s IH]; simpl; [done|].
  destruct (PyStr.rstrip s); [destruct (PyStr.is_space c)|]; simpl in *; lia.
Qed.

(** A text that [strip] leaves alone starts with no whitespace and ends
    with none. *)
Lemma strip_fixed s :
  PyStr.strip s = s -> PyStr.lstrip s = s /\ PyStr.rstrip s = s.
Proof.
  unfold PyStr.strip. intros H.
  assert (Hl : PyStr.lstrip s = s).
  { destruct s as [|c s]; [done|]. simpl in *.
    destruct (PyStr.is_space c); [|done].
    pose proof (length_rstrip (PyStr.lstrip s)) as H1.
    pose proof (length_lstrip s) as H2.
    rewrite H in H1. simpl in H1. lia. }
  split; [done|]. by rewrite Hl in H.
Qed.

Lemma lstrip_app s rest : s <> EmptyString -> PyStr.lstrip s = s ->
  PyStr.lstrip (s +:+ rest) = s +:+ rest.
Proof.
  destruct s as [|c s]; [done|]. simpl. intros _ H.
  destruct (PyStr.is_space c); [|done].
  pose proof (length_lstrip s) as Hlen. rewrite H in Hlen. simpl in Hlen. lia.
Qed.

Lemma rstrip_snoc s c : PyStr.is_space c = false ->
  PyStr.rstrip (s +:+ String c EmptyString) = s +:+ String c EmptyString.
Proof.
  intros Hc. induction s as [|d s IH]; simpl.
  - by rewrite Hc.
  - rewrite IH. by destruct s.
Qed.

Lemma endswith_snoc s c : endswith c (s +:+ String c EmptyString) = true.
Proof.
  induction s as [|d s IH]; simpl; [apply Ascii.eqb_refl|].
  rewrite IH. by destruct s.
Qed.

Lemma drop_last_snoc s c : drop_last (s +:+ String c EmptyString) = s.
Proof.
  induction s as [|d s IH]; simpl; [done|].
  rewrite IH. by destruct s.
Qed.

Lemma append_assoc (a b c : string) : a +:+ b +:+ c = (a +:+ b) +:+ c.
Proof.
  induction a as [|d a IH]; [done|].
  change (String d (a +:+ b +:+ c) = String d ((a +:+ b) +:+ c)). by rewrite IH.
Qed.

Lemma strip_padded pad1 s pad2 :
  blank pad1 = true -> blank pad2 = true -> PyStr.strip s = s ->
  PyStr.strip (pad1 +:+ s +:+ pad2) = s.
Proof.
  intros H1 H2 [Hl Hr]%strip_fixed. unfold PyStr.strip.
  rewrite lstrip_blank by done.
  destruct (decide (s = EmptyString)) as [->|Hne].
  - simpl. clear Hl Hr. induction pad2 as [|c pad2 IH]; simpl; [done|].
    simpl in H2. apply andb_prop in H2 as [-> H2]. by apply IH.
  - rewrite lstrip_app by done. by rewrite rstrip_blank.
Qed.

(** X11. A file that starts with [window.] but has no [=] makes
    [load_tweets_from_archive] fail in [content.index], before anything is
    parsed. *)
Theorem archive_without_assignment_fails (content : string) :
  String.prefix "window." content = true ->
  PyStr.contains "=" content = false ->
  archive_payload content = None.
Proof.
  intros Hp Hc. unfold archive_payload. rewrite Hp.
  by apply index_none in Hc as ->.
Qed.

Lemma archive_without_assignment_fails_witness :
  archive_payload "window.YTD.tweet.part0 [ ]" = None.
Proof. apply archive_without_assignment_fails; reflexivity. Defined.

(** X12. What reaches [json.loads] is the text the archive wraps: for a variable
    name without [=], a text [body] with no whitespace at either end that
    does not end in a semicolon, and whitespace [pad1], [pad2], [pad3], the
    files [window.<name>=<pad1><body><pad2>] and
    [window.<name>=<pad1><body>;<pad3>] both yield [body], whatever [=] and
    [;] occur inside [body]. *)
Theorem archive_payload_unwraps (name pad1 body pad2 : string) (semicolon : bool) :
  PyStr.contains "=" name = false ->
  blank pad1 = true -> blank pad2 = true ->
  PyStr.strip body = body ->
  endswith ";" body = false ->
  archive_payload ("window." +:+ name +:+ "=" +:+ pad1 +:+ body
                   +:+ (if semicolon then ";" else EmptyString) +:+ pad2)
  = Some body.
Proof.
  intros Hname H1 H2 Hbody Hsemi. unfold archive_payload.
  change (String.prefix "window." ("window." +:+ ?s)) with (String.prefix EmptyString s).
  assert (Hp : forall s, String.prefix EmptyString s = true) by (by intros []).
  rewrite Hp.
  assert (Hi : index "=" ("window." +:+ name) = None).
  { apply index_none. simpl. by apply Hname. }
  set (rest := pad1 +:+ body +:+ (if semicolon then ";" else EmptyString) +:+ pad2).
  replace ("window." +:+ name +:+ "=" +:+ rest)
    with (("window." +:+ name) +:+ String "=" rest) by reflexivity.
  rewrite (index_app_first _ _ _ Hi), Nat.add_1_r.
  change (drop_chars (S ?n) (?a +:+ String "=" ?r))
    with (drop_chars (S n) (a +:+ String "=" r)).
  assert (Hd : forall a r, drop_chars (S (String.length a)) (a +:+ String "=" r) = r).
  { intros a r. induction a as [|d a IH]; simpl; [by destruct r|exact IH]. }
  rewrite Hd. subst rest. cbv zeta. destruct semicolon.
  - assert (Hs : PyStr.strip (body +:+ ";") = body +:+ ";").
    { apply strip_fixed in Hbody as [Hl Hr]. unfold PyStr.strip.
      destruct (decide (body = EmptyString)) as [->|Hne]; [reflexivity|].
      rewrite lstrip_app by done. by apply rstrip_snoc. }
    rewrite (append_assoc body ";" pad2).
    rewrite strip_padded by done. by rewrite endswith_snoc, drop_last_snoc.
  - change (EmptyString +:+ pad2) with pad2.
    rewrite strip_padded by done. by rewrite Hsemi.
Qed.

Lemma archive_payload_unwraps_witness :
  archive_payload ("window." +:+ "YTD.tweet.part0 " +:+ "=" +:+ " "
                   +:+ "[{'id': '1', 'text': 'a=b;'}]" +:+ ";" +:+ String newline EmptyString)
  = Some "[{'id': '1', 'text': 'a=b;'}]".
Proof.
  apply (archive_payload_unwraps "YTD.tweet.part0 " " " "[{'id': '1', 'text': 'a=b;'}]"
           (String newline EmptyString) true); reflexivity.
Defined.

(** * Fetching the tweets *)

Lemma cache_writes_app e1 e2 : cache_writes (e1 ++ e2) = cache_writes e1 ++ cache_writes e2.
Proof. apply omap_app. Qed.

Lemma page_requests_app e1 e2 :
  page_requests (e1 ++ e2) = page_requests e1 ++ page_requests e2.
Proof. apply omap_app. Qed.

Lemma cache_writes_fresh before evs n :
  cache_writes (before ++ FetchPrint MsgFetching
                  :: evs ++ [FetchPrint (MsgTotalFetched n); FetchPrint MsgSavedToCache])
  = cache_writes before ++ cache_writes evs.
Proof.
  rewrite cache_writes_app. f_equal.
  change (cache_writes (FetchPrint MsgFetching :: ?x)) with (cache_writes x).
  rewrite cache_writes_app. apply app_nil_r.
Qed.

Lemma page_requests_fresh before evs n :
  page_requests (before ++ FetchPrint MsgFetching
                   :: evs ++ [FetchPrint (MsgTotalFetched n); FetchPrint MsgSavedToCache])
  = page_requests before ++ page_requests evs.
Proof.
  rewrite page_requests_app. f_equal.
  change (page_requests (FetchPrint MsgFetching :: ?x)) with (page_requests x).
  rewrite page_requests_app. apply app_nil_r.
Qed.

(** The loop keeps the cache file in step with the tweets fetched. *)
Lemma fetch_loop_cache tl user_id : forall fuel token tweets w result w' evs,
  fetch_loop fuel tl user_id token tweets w = Some (result, w', evs) ->
  (tweets <> [] -> cache_file w = Some tweets) ->
  tweets `prefix_of` result
  /\ (result <> [] -> cache_file w' = Some result)
  /\ (result = [] -> cache_file w' = cache_file w)
  /\ Forall (fun l => l <> [] /\ l `prefix_of` result) (cache_writes evs)
  /\ typed w' = typed w
  /\ page_requests evs <> [].
Proof.
  induction fuel as [|fuel IH]; intros token tweets w result w' evs Hrun Hcache; [done|].
  simpl in Hrun.
  destruct (get_users_tweets tl (page_calls w) user_id token) as [e|data next].
  - destruct tweets as [|t tweets]; injection Hrun as <- <- <-.
    + repeat split; try done; constructor.
    + repeat split; try done; repeat constructor; done.
  - set (tweets' := tweets ++ data) in *.
    set (w1 := match data with [] => asked w | _ :: _ => saved tweets' (asked w) end) in *.
    set (progress := match data with
                     | [] => []
                     | _ :: _ => [FetchPrint (MsgFetchedSoFar (length tweets'));
                                  CacheWrite tweets']
                     end) in *.
    assert (H1 : tweets' <> [] -> cache_file w1 = Some tweets').
    { subst w1 tweets'. destruct data as [|d data]; [|done].
      rewrite app_nil_r. exact Hcache. }
    assert (H2 : tweets' = [] -> cache_file w1 = cache_file w).
    { subst w1 tweets'. destruct data as [|d data]; [done|].
      intros E. by apply app_eq_nil in E as [_ E]. }
    assert (H3 : typed w1 = typed w) by (subst w1; by destruct data).
    assert (H4 : forall r, tweets' `prefix_of` r ->
                 Forall (fun l => l <> [] /\ l `prefix_of` r) (cache_writes progress)).
    { intros r Hr. subst progress tweets'. destruct data as [|d data]; [constructor|].
      repeat constructor; [|done]. intros E. by apply app_eq_nil in E as [_ E]. }
    destruct next as [t|].
    + destruct (fetch_loop fuel tl user_id (Some t) tweets' w1) as [[[r w2] evs2]|] eqn:E;
        [|done].
      injection Hrun as <- <- <-.
      destruct (IH _ _ _ _ _ _ E H1) as (Hp & Hne & Hnil & Hw & Ht & _).
      assert (Hpre : tweets `prefix_of` r) by (etrans; [by apply prefix_app_r|exact Hp]).
      split; [done|]. split; [done|]. split.
      { intros ->. rewrite Hnil by done. apply H2.
        apply prefix_nil_inv in Hp. done. }
      split.
      { change (GetUsersTweets token (Page data (Some t)) :: progress ++ evs2)
          with ([GetUsersTweets token (Page data (Some t))] ++ progress ++ evs2).
        rewrite !cache_writes_app. apply Forall_app. split; [constructor|].
        apply Forall_app. split; [by apply H4|done]. }
      split; [congruence|done].
    + injection Hrun as <- <- <-.
      split; [by apply prefix_app_r|]. split; [done|]. split; [done|]. split.
      { change (GetUsersTweets token (Page data None) :: progress)
          with ([GetUsersTweets token (Page data None)] ++ progress).
        rewrite cache_writes_app. apply Forall_app. split; [constructor|by apply H4]. }
      split; done.
Qed.

(** X13. The cache file follows what [fetch_tweets_from_api] returns: after a
    call that returns tweets the file holds exactly the list returned
    (whether it came from the cache, from a complete fetch or from a fetch
    cut short by an API error); after a call that returns none the file is
    as it was, so that an old cache outlives an empty fetch; and every
    content written on the way is a non-empty initial segment of the list
    returned. *)
Theorem cache_follows_fetch (fuel : nat) (tl : timeline) (user_id : string)
    (w w' : fetch_world) (tweets : list tweet) (evs : list fetch_event) :
  fetch_tweets_from_api fuel tl user_id w = Some (tweets, w', evs) ->
  cache_file w' = match tweets with [] => cache_file w | _ :: _ => Some tweets end
  /\ Forall (fun l => l <> [] /\ l `prefix_of` tweets) (cache_writes evs).
Proof.
  assert (Hfresh : forall before, cache_writes before = [] ->
            fetch_fresh fuel tl user_id w before = Some (tweets, w', evs) ->
            cache_file w' = match tweets with [] => cache_file w | _ :: _ => Some tweets end
            /\ Forall (fun l => l <> [] /\ l `prefix_of` tweets) (cache_writes evs)).
  { intros before Hb Hrun. unfold fetch_fresh in Hrun.
    destruct (fetch_loop fuel tl user_id None [] w) as [[[r w1] evs1]|] eqn:E; [|done].
    injection Hrun as <- <- <-.
    destruct (fetch_loop_cache _ _ _ _ _ _ _ _ _ E) as (_ & Hne & Hnil & Hw & _); [done|].
    split.
    - destruct r as [|t r]; [by apply Hnil|by apply Hne].
    - by rewrite cache_writes_fresh, Hb. }
  unfold fetch_tweets_from_api. destruct (cache_file w) as [cached|] eqn:Ec.
  - destruct (String.eqb _ _).
    + intros H. injection H as <- <- <-. split; [by destruct cached|constructor].
    + by apply Hfresh.
  - by apply Hfresh.
Qed.

Lemma cache_follows_fetch_witness :
  cache_file (FetchWorld (Some [Sample.hello; Sample.crypto]) 3 "n")
  = Some [Sample.hello; Sample.crypto]
  /\ Forall (fun l => l <> [] /\ l `prefix_of` [Sample.hello; Sample.crypto])
       (cache_writes
          [CacheExists true; CacheRead [Sample.hello_again];
           FetchPrint (MsgLoadedFromCache 1); FetchInput "n"; FetchPrint MsgFetching;
           GetUsersTweets None (Page [Sample.hello] (Some "t1"));
           FetchPrint (MsgFetchedSoFar 1); CacheWrite [Sample.hello];
           GetUsersTweets (Some "t1") (Page [Sample.crypto] (Some "t2"));
           FetchPrint (MsgFetchedSoFar 2); CacheWrite [Sample.hello; Sample.crypto];
           GetUsersTweets (Some "t2") (PageError "503 Service Unavailable");
           FetchPrint (MsgApiError "503 Service Unavailable");
           FetchPrint (MsgSavingSoFar 2); CacheWrite [Sample.hello; Sample.crypto];
           FetchPrint (MsgTotalFetched 2); FetchPrint MsgSavedToCache]).
Proof.
  apply (cache_follows_fetch 3 sample_timeline "me" sample_cached
           (FetchWorld (Some [Sample.hello; Sample.crypto]) 3 "n")
           [Sample.hello; Sample.crypto]).
  vm_compute. reflexivity.
Defined.

(** The loop follows the pages it is served. *)
Lemma fetch_loop_serves tl user_id last : ends_fetch last ->
  forall pages fuel token tweets w,
    serves tl user_id (page_calls w) token pages last ->
    length pages < fuel ->
    exists w' evs,
      fetch_loop fuel tl user_id token tweets w
      = Some (tweets ++ concat (fst <$> pages) ++ data_of last, w', evs)
      /\ page_requests evs = token :: (Some ∘ snd <$> pages)
      /\ page_calls w' = page_calls w + S (length pages).
Proof.
  intros Hlast. induction pages as [|[data next] pages IH];
    intros fuel token tweets w Hs Hfuel; (destruct fuel as [|fuel]; [simpl in Hfuel; lia|]).
  - simpl in Hs. simpl. rewrite Hs.
    destruct last as [e|data [t|]]; [|done|].
    + rewrite app_nil_r.
      destruct tweets; eexists _, _; (split; [reflexivity|split; [reflexivity|simpl; lia]]).
    + destruct data; eexists _, _; (split; [reflexivity|split; [reflexivity|simpl; lia]]).
  - destruct Hs as [Hs1 Hs2]. simpl. rewrite Hs1.
    set (w1 := match data with [] => asked w | _ :: _ => saved (tweets ++ data) (asked w) end).
    assert (Hcalls : page_calls w1 = S (page_calls w)) by (subst w1; by destruct data).
    rewrite <- Hcalls in Hs2.
    destruct (IH fuel (Some next) (tweets ++ data) w1 Hs2) as (w' & evs & -> & Hreq & Hn);
      [simpl in Hfuel; lia|].
    eexists _, _. split; [by rewrite <- !app_assoc|]. split.
    + change (GetUsersTweets token (Page data (Some next)) :: ?a ++ evs)
        with ([GetUsersTweets token (Page data (Some next))] ++ a ++ evs).
      rewrite !page_requests_app, Hreq. by destruct data.
    + rewrite Hn, Hcalls. simpl. lia.
Qed.

(** X14. Unless the user accepts a cache, [fetch_tweets_from_api] walks the
    timeline from its first page, asking for each page with the token the
    page before gave, until a call raises or returns a page without a next
    token, and returns the tweets of all the pages in the order served; a
    call that raises ends the fetch like a last page, and the tweets of the
    pages before it are returned as the result.  As many calls as there are
    pages are made, and no more. *)
Theorem fetch_returns_pages_in_order (fuel : nat) (tl : timeline) (user_id : string)
    (w : fetch_world) (pages : list (list tweet * string)) (last : page_result) :
  cache_file w = None \/ ~ accepts_cache w ->
  serves tl user_id (page_calls w) None pages last ->
  ends_fetch last ->
  length pages < fuel ->
  exists w' evs,
    fetch_tweets_from_api fuel tl user_id w
    = Some (concat (fst <$> pages) ++ data_of last, w', evs)
    /\ page_requests evs = None :: (Some ∘ snd <$> pages)
    /\ page_calls w' = page_calls w + S (length pages).
Proof.
  intros Hcache Hs Hlast Hfuel.
  destruct (fetch_loop_serves tl user_id last Hlast pages fuel None [] w Hs Hfuel)
    as (w' & evs & Hrun & Hreq & Hn).
  assert (Hfresh : forall before, page_requests before = [] ->
            exists evs',
              fetch_fresh fuel tl user_id w before
              = Some (concat (fst <$> pages) ++ data_of last, w', evs')
              /\ page_requests evs' = None :: (Some ∘ snd <$> pages)).
  { intros before Hb. unfold fetch_fresh. rewrite Hrun. eexists. split; [reflexivity|].
    etrans; [apply page_requests_fresh|]. by rewrite Hb, Hreq. }
  unfold fetch_tweets_from_api. destruct (cache_file w) as [cached|].
  - destruct Hcache as [|Hno]; [done|].
    destruct (String.eqb_spec (PyStr.lower (PyStr.strip (typed w))) "y") as [E|_]; [done|].
    destruct (Hfresh [CacheExists true; CacheRead cached;
                      FetchPrint (MsgLoadedFromCache (length cached));
                      FetchInput (typed w)] eq_refl) as (evs' & -> & Hr).
    by exists w', evs'.
  - destruct (Hfresh [CacheExists false] eq_refl) as (evs' & -> & Hr).
    by exists w', evs'.
Qed.

Lemma fetch_returns_pages_in_order_witness :
  exists w' evs,
    fetch_tweets_from_api 3 sample_timeline "me" sample_cached
    = Some (concat (fst <$> [([Sample.hello], "t1"); ([Sample.crypto], "t2")])
            ++ data_of (PageError "503 Service Unavailable"), w', evs)
    /\ page_requests evs
       = None :: (Some ∘ snd <$> [([Sample.hello], "t1"); ([Sample.crypto], "t2")])
    /\ page_calls w'
       = page_calls sample_cached
         + S (length [([Sample.hello], "t1"); ([Sample.crypto], "t2")]).
Proof.
  apply (fetch_returns_pages_in_order 3 sample_timeline "me" sample_cached
           [([Sample.hello], "t1"); ([Sample.crypto], "t2")]
           (PageError "503 Service Unavailable")).
  - right. unfold accepts_cache. vm_compute. discriminate.
  - vm_compute. repeat split.
  - exact I.
  - simpl. lia.
Defined.

(** X15. The timeline is left alone exactly when there is a cache file and the
    user accepts it: then the cached list is returned as it is and nothing
    is written; in every other call that returns, the timeline is asked at
    least once, whatever the cache holds. *)
Theorem cache_spares_the_timeline (fuel : nat) (tl : timeline) (user_id : string)
    (w w' : fetch_world) (tweets : list tweet) (evs : list fetch_event) :
  fetch_tweets_from_api fuel tl user_id w = Some (tweets, w', evs) ->
  (page_requests evs = [] <-> (is_Some (cache_file w) /\ accepts_cache w))
  /\ (page_requests evs = [] -> cache_file w = Some tweets /\ w' = w).
Proof.
  assert (Hfresh : forall before,
            fetch_fresh fuel tl user_id w before = Some (tweets, w', evs) ->
            page_requests evs <> []).
  { intros before Hrun. unfold fetch_fresh in Hrun.
    destruct (fetch_loop fuel tl user_id None [] w) as [[[r w1] evs1]|] eqn:E; [|done].
    injection Hrun as <- <- <-.
    destruct (fetch_loop_cache _ _ _ _ _ _ _ _ _ E) as (_ & _ & _ & _ & _ & Hreq); [done|].
    rewrite page_requests_fresh. intros H. by apply app_eq_nil in H as [_ H]. }
  unfold fetch_tweets_from_api, accepts_cache.
  destruct (cache_file w) as [cached|] eqn:Ec.
  - destruct (String.eqb_spec (PyStr.lower (PyStr.strip (typed w))) "y") as [E|E].
    + intros H. injection H as <- <- <-. split; [|done]. split; [done|reflexivity].
    + intros H%Hfresh. split; [|done]. split; [done|]. by intros [_ ?].
  - intros H%Hfresh. split; [|done]. split; [done|]. intros [[? ?] _]. done.
Qed.

Lemma cache_spares_the_timeline_witness :
  (page_requests [CacheExists true; CacheRead [Sample.hello_again];
                  FetchPrint (MsgLoadedFromCache 1); FetchInput " Y "] = []
   <-> (is_Some (cache_file (FetchWorld (Some [Sample.hello_again]) 0 " Y "))
        /\ accepts_cache (FetchWorld (Some [Sample.hello_again]) 0 " Y ")))
  /\ (page_requests [CacheExists true; CacheRead [Sample.hello_again];
                     FetchPrint (MsgLoadedFromCache 1); FetchInput " Y "] = []
      -> cache_file (FetchWorld (Some [Sample.hello_again]) 0 " Y ")
         = Some [Sample.hello_again]
         /\ FetchWorld (Some [Sample.hello_again]) 0 " Y "
            = FetchWorld (Some [Sample.hello_again]) 0 " Y ").
Proof.
  apply (cache_spares_the_timeline 0 sample_timeline "me").
  vm_compute. reflexivity.
Defined.
